(** * SprintSlides backend: deck normalisation, orchestration and PDF layout

    A shallow embedding of [backend/main.py].  Python objects decoded from
    JSON are values of the inductive [value]; a [str] is the list of its
    Unicode code points; a [dict] is an association list in insertion order
    with unique keys.  Code that raises returns a [result]; the two endpoints
    that talk to the completion service run in a state-and-exception monad
    over a [world] that logs every request sent. *)

From Stdlib Require Import String Ascii DecimalString.
From Stdlib Require Import ZArith NArith List Bool Lia.
From Stdlib Require Import PrimFloat.
Import ListNotations.

Set Warnings "-register-all,-inexact-float,-notation-for-abbreviation".

Local Open Scope Z_scope.
Local Open Scope list_scope.

(** ** Python strings *)

Module Str.

(** A code point, and a string as the list of its code points. *)
Notation char := N (only parsing).
Notation str := (list N) (only parsing).

(** An ASCII literal as a [str]. *)
Definition lit (s : string) : str := map N_of_ascii (list_ascii_of_string s).

(** [len(l)] *)
Definition len {A} (l : list A) : Z := Z.of_nat (length l).

Fixpoint eqb (a b : str) : bool :=
  match a, b with
  | [], [] => true
  | x :: a', y :: b' => N.eqb x y && eqb a' b'
  | _, _ => false
  end.

(** [str.isspace] on one code point: the characters [str.strip] and
    [str.split] treat as whitespace. *)
Definition isspace (c : char) : bool :=
  ((9 <=? c) && (c <=? 13) || (28 <=? c) && (c <=? 32) || (c =? 133)
   || (c =? 160) || (c =? 5760) || (8192 <=? c) && (c <=? 8202)
   || (c =? 8232) || (c =? 8233) || (c =? 8239) || (c =? 8287)
   || (c =? 12288))%N.

Fixpoint lstrip (s : str) : str :=
  match s with
  | c :: t => if isspace c then lstrip t else s
  | [] => []
  end.

Definition rstrip (s : str) : str := rev (lstrip (rev s)).

Definition strip (s : str) : str := rstrip (lstrip s).

(** [s.split()]: maximal runs of non-whitespace. [cur] is the word being
    read. *)
Fixpoint split_ws (cur s : str) : list str :=
  match s with
  | [] => match cur with [] => [] | _ => [cur] end
  | c :: t =>
      if isspace c
      then match cur with [] => split_ws [] t | _ => cur :: split_ws [] t end
      else split_ws (cur ++ [c]) t
  end.

Definition split (s : str) : list str := split_ws [] s.

(** [s.split(sep)] for a one-character separator. *)
Fixpoint split_on (sep : char) (cur s : str) : list str :=
  match s with
  | [] => [cur]
  | c :: t =>
      if N.eqb c sep then cur :: split_on sep [] t
      else split_on sep (cur ++ [c]) t
  end.

Fixpoint startswith (s p : str) : bool :=
  match p, s with
  | [], _ => true
  | a :: p', b :: s' => N.eqb a b && startswith s' p'
  | _ :: _, [] => false
  end.

(** [s.find(p)], with Python's -1 for no occurrence. *)
Fixpoint find_from (i : Z) (s p : str) : Z :=
  if startswith s p then i
  else match s with
       | [] => -1
       | _ :: t => find_from (i + 1) t p
       end.

Definition find (s p : str) : Z := find_from 0 s p.

(** [s.rfind(p)]: the highest index at which [p] occurs. *)
Fixpoint rfind_from (i : Z) (s p : str) (last : Z) : Z :=
  let last' := if startswith s p then i else last in
  match s with
  | [] => last'
  | _ :: t => rfind_from (i + 1) t p last'
  end.

Definition rfind (s p : str) : Z := rfind_from 0 s p (-1).

(** Python slicing [l[lo:hi]], negative indices counting from the end. *)
Definition clamp (n i : Z) : Z :=
  if i <? 0 then Z.max 0 (n + i) else Z.min i n.

Definition slice {A} (l : list A) (lo hi : option Z) : list A :=
  let n := Z.of_nat (length l) in
  let a := match lo with Some i => clamp n i | None => 0 end in
  let b := match hi with Some j => clamp n j | None => n end in
  firstn (Z.to_nat (b - a)) (skipn (Z.to_nat a) l).

Fixpoint replace_char (a b : char) (s : str) : str :=
  match s with
  | [] => []
  | c :: t => (if N.eqb c a then b else c) :: replace_char a b t
  end.

Fixpoint join (sep : str) (l : list str) : str :=
  match l with
  | [] => []
  | [x] => x
  | x :: t => x ++ sep ++ join sep t
  end.

(** [str(z)] for an integer. *)
Definition of_Z (z : Z) : str := lit (NilZero.string_of_int (Z.to_int z)).

Definition hexdigit (n : N) : char :=
  (if n <? 10 then 48 + n else 87 + n)%N.

(** [n] as [k] lowercase hexadecimal digits. *)
Fixpoint hex (k : nat) (n : N) : str :=
  match k with
  | O => []
  | S k' => hex k' (n / 16) ++ [hexdigit (n mod 16)]
  end.

End Str.

Import Str.

Definition nl : str := [10%N].

(** A literal written with ['] where the program text has a double quote. *)
Definition qlit (s : string) : str := replace_char 39%N 34%N (lit s).

Definition nonempty {A} (l : list A) : bool :=
  match l with
  | [] => false
  | _ :: _ => true
  end.

(** ** Decoded JSON values *)

(** A Python object as [json.loads] builds it.  A float keeps the numeral the
    scanner matched ([NaN], [Infinity] and [-Infinity] included); the double
    it denotes is a function of that numeral. *)
Inductive value : Type :=
| VNone
| VBool (b : bool)
| VInt (z : Z)
| VFloat (numeral : str)
| VStr (s : str)
| VList (l : list value)
| VDict (d : list (str * value)).

Definition dict := list (str * value).

Fixpoint dict_get (d : dict) (k : str) : option value :=
  match d with
  | [] => None
  | (k', v) :: t => if Str.eqb k' k then Some v else dict_get t k
  end.

(** [d.get(k, default)]. *)
Definition get (d : dict) (k : str) (default : value) : value :=
  match dict_get d k with
  | Some v => v
  | None => default
  end.

(** [d[k] = v]: a key already present keeps its position. *)
Fixpoint dict_set (d : dict) (k : str) (v : value) : dict :=
  match d with
  | [] => [(k, v)]
  | (k', v') :: t =>
      if Str.eqb k' k then (k', v) :: t else (k', v') :: dict_set t k v
  end.

Definition values (d : dict) : list value := map snd d.

(** ** Drawing operations of the PDF canvas *)

Inductive canvas_op : Type :=
| setFillColor (color : str)
| setStrokeColor (color : str)
| setLineWidth (w : Z)
| setFont (name : str) (size : Z)
| rect (x y w h : float) (fill : Z)
| drawImage (x y w h : float)
| drawString (x y : float) (text : str)
| drawCentredString (x y : float) (text : str)
| drawRightString (x y : float) (text : str)
| line (x1 y1 x2 y2 : float)
| showPage
| save.

(** ** What the interpreter and its libraries supply

    Unicode tables, float printing and the PDF serialiser are not part of the
    program; the program is embedded over any implementation of them. *)
Class Runtime : Type := {
  (** [str.isprintable] on a code point above U+007F *)
  isprintable : char -> bool;
  (** [repr(float(numeral))] *)
  float_repr : str -> str;
  (** [str.upper] and [str.title] *)
  str_upper : str -> str;
  str_title : str -> str;
  (** the bytes the canvas buffer holds after these operations *)
  getpdfdata : list canvas_op -> list Byte.byte
}.

Section Repr.

Context {rt : Runtime}.

Definition mem (c : char) (s : str) : bool := existsb (N.eqb c) s.

Definition repr_char (quote c : char) : str :=
  (if (c =? quote) || (c =? 92) then [92; c]
   else if c =? 9 then lit "\t"
   else if c =? 10 then lit "\n"
   else if c =? 13 then lit "\r"
   else if (c <? 32) || (c =? 127) then lit "\x" ++ hex 2 c
   else if c <? 127 then [c]
   else if isprintable c then [c]
   else if c <=? 255 then lit "\x" ++ hex 2 c
   else if c <=? 65535 then lit "\u" ++ hex 4 c
   else lit "\U" ++ hex 8 c)%N.

(** [repr(s)] for a string. *)
Definition repr_str (s : str) : str :=
  let quote := if mem 39%N s && negb (mem 34%N s) then 34%N else 39%N in
  [quote] ++ flat_map (repr_char quote) s ++ [quote].

Fixpoint repr (v : value) : str :=
  match v with
  | VNone => lit "None"
  | VBool true => lit "True"
  | VBool false => lit "False"
  | VInt z => of_Z z
  | VFloat x => float_repr x
  | VStr s => repr_str s
  | VList l => lit "[" ++ join (lit ", ") (map repr l) ++ lit "]"
  | VDict d =>
      lit "{"
      ++ join (lit ", ")
           (map (fun kv => repr_str (fst kv) ++ lit ": " ++ repr (snd kv)) d)
      ++ lit "}"
  end.

(** [str(v)]. *)
Definition py_str (v : value) : str :=
  match v with
  | VStr s => s
  | _ => repr v
  end.

End Repr.

(** ** [json.loads]

    The scanner of the standard library on a [str], in its default strict
    mode. The interpreter's limits on recursion depth and on the number of
    digits of an integer are not modelled. *)

Module Json.

Definition is_ws (c : char) : bool :=
  ((c =? 32) || (c =? 9) || (c =? 10) || (c =? 13))%N.

Fixpoint skip_ws (s : str) : str :=
  match s with
  | c :: t => if is_ws c then skip_ws t else s
  | [] => []
  end.

Definition is_digit (c : char) : bool := ((48 <=? c) && (c <=? 57))%N.

Definition hexval (c : char) : option N :=
  (if (48 <=? c) && (c <=? 57) then Some (c - 48)
   else if (97 <=? c) && (c <=? 102) then Some (c - 87)
   else if (65 <=? c) && (c <=? 70) then Some (c - 55)
   else None)%N.

Definition hex4 (a b c d : char) : option N :=
  match hexval a, hexval b, hexval c, hexval d with
  | Some x, Some y, Some z, Some w => Some (((x * 16 + y) * 16 + z) * 16 + w)%N
  | _, _, _, _ => None
  end.

Definition escape (c : char) : option char :=
  (if c =? 34 then Some 34
   else if c =? 92 then Some 92
   else if c =? 47 then Some 47
   else if c =? 98 then Some 8
   else if c =? 102 then Some 12
   else if c =? 110 then Some 10
   else if c =? 114 then Some 13
   else if c =? 116 then Some 9
   else None)%N.

Definition is_high (u : N) : bool := ((55296 <=? u) && (u <=? 56319))%N.
Definition is_low (u : N) : bool := ((56320 <=? u) && (u <=? 57343))%N.
Definition join_surrogates (hi lo : N) : N :=
  (65536 + (hi - 55296) * 1024 + (lo - 56320))%N.

Definition cons_fst {A B} (a : A) (r : option (list A * B)) :=
  match r with
  | Some (l, x) => Some (a :: l, x)
  | None => None
  end.

(** A high surrogate read from a [\u] escape waits in [pending] for the low
    half; anything else that follows puts it out alone. *)
Definition flush {B} (pending : option N) (r : option (str * B)) :=
  match pending with
  | Some hi => cons_fst hi r
  | None => r
  end.

(** The body of a string, after its opening quote, in strict mode. *)
Fixpoint scanstring_from (pending : option N) (s : str) : option (str * str) :=
  match s with
  | [] => None
  | c :: t =>
      if (c =? 34)%N then flush pending (Some ([], t))
      else if (c =? 92)%N then
        match t with
        | [] => None
        | e :: t1 =>
            if (e =? 117)%N then
              match t1 with
              | h1 :: h2 :: h3 :: h4 :: t2 =>
                  match hex4 h1 h2 h3 h4 with
                  | None => None
                  | Some u =>
                      match pending with
                      | Some hi =>
                          if is_low u
                          then cons_fst (join_surrogates hi u)
                                 (scanstring_from None t2)
                          else if is_high u
                          then cons_fst hi (scanstring_from (Some u) t2)
                          else cons_fst hi (cons_fst u (scanstring_from None t2))
                      | None =>
                          if is_high u then scanstring_from (Some u) t2
                          else cons_fst u (scanstring_from None t2)
                      end
                  end
              | _ => None
              end
            else match escape e with
                 | Some x => flush pending (cons_fst x (scanstring_from None t1))
                 | None => None
                 end
        end
      else if (c <=? 31)%N then None
      else flush pending (cons_fst c (scanstring_from None t))
  end.

Definition scanstring (s : str) : option (str * str) := scanstring_from None s.

Fixpoint span_digits (s : str) : str * str :=
  match s with
  | c :: t =>
      if is_digit c then let (ds, r) := span_digits t in (c :: ds, r)
      else ([], s)
  | [] => ([], [])
  end.

Fixpoint digits_value (acc : Z) (ds : str) : Z :=
  match ds with
  | [] => acc
  | c :: t => digits_value (10 * acc + (Z.of_N c - 48)) t
  end.

(** Integer part: [0] or a non-zero digit followed by digits. *)
Definition int_part (s : str) : option (str * str) :=
  match s with
  | c :: t =>
      if ((49 <=? c) && (c <=? 57))%N
      then let (ds, r) := span_digits t in Some (c :: ds, r)
      else if (c =? 48)%N then Some ([c], t)
      else None
  | [] => None
  end.

(** Fraction: a point and at least one digit, or nothing. *)
Definition frac_part (s : str) : str * str :=
  match s with
  | p :: d :: t =>
      if ((p =? 46)%N && is_digit d)
      then let (ds, r) := span_digits t in (p :: d :: ds, r)
      else ([], s)
  | _ => ([], s)
  end.

(** Exponent: [e] or [E], an optional sign and at least one digit, or
    nothing. *)
Definition exp_part (s : str) : str * str :=
  match s with
  | e :: t =>
      if ((e =? 101) || (e =? 69))%N then
        let (sign, t1) :=
          match t with
          | c :: t' => if ((c =? 43) || (c =? 45))%N then ([c], t') else ([], t)
          | [] => ([], t)
          end in
        match span_digits t1 with
        | ([], _) => ([], s)
        | (ds, r) => (e :: sign ++ ds, r)
        end
      else ([], s)
  | [] => ([], s)
  end.

Definition match_number (s : str) : option (value * str) :=
  let (sign, s1) :=
    match s with
    | c :: t => if (c =? 45)%N then ([c], t) else ([], s)
    | [] => ([], s)
    end in
  match int_part s1 with
  | None => None
  | Some (ip, r1) =>
      let (fp, r2) := frac_part r1 in
      let (ep, r3) := exp_part r2 in
      match fp, ep with
      | [], [] =>
          Some (VInt (match sign with
                      | [] => digits_value 0 ip
                      | _ => - digits_value 0 ip
                      end), r3)
      | _, _ => Some (VFloat (sign ++ ip ++ fp ++ ep), r3)
      end
  end.

(** A constant such as [null]: the word itself, nothing looked at after. *)
Definition constant (word : str) (v : value) (s : str) : option (value * str) :=
  if startswith s word then Some (v, skipn (length word) s) else None.

(** The scanner. [fuel] bounds the number of nested calls; a call on [s]
    needs no more than [length s + 1]. *)
Fixpoint scan_once (fuel : nat) (s : str) {struct fuel} : option (value * str) :=
  match fuel with
  | O => None
  | S f =>
      match s with
      | [] => None
      | c :: t =>
          if (c =? 34)%N then
            match scanstring t with
            | Some (k, r) => Some (VStr k, r)
            | None => None
            end
          else if (c =? 123)%N then
            match skip_ws t with
            | c' :: t' =>
                if (c' =? 125)%N then Some (VDict [], t')
                else match parse_members f [] (c' :: t') with
                     | Some (d, r) => Some (VDict d, r)
                     | None => None
                     end
            | [] => None
            end
          else if (c =? 91)%N then
            match skip_ws t with
            | c' :: t' =>
                if (c' =? 93)%N then Some (VList [], t')
                else match parse_elements f [] (c' :: t') with
                     | Some (l, r) => Some (VList l, r)
                     | None => None
                     end
            | [] => None
            end
          else if (c =? 110)%N then constant (lit "null") VNone s
          else if (c =? 116)%N then constant (lit "true") (VBool true) s
          else if (c =? 102)%N then constant (lit "false") (VBool false) s
          else if (c =? 78)%N then constant (lit "NaN") (VFloat (lit "NaN")) s
          else if (c =? 73)%N then
            constant (lit "Infinity") (VFloat (lit "Infinity")) s
          else if startswith s (lit "-Infinity") then
            constant (lit "-Infinity") (VFloat (lit "-Infinity")) s
          else match_number s
      end
  end

(** Members of an object, from the opening quote of a key. *)
with parse_members (fuel : nat) (acc : dict) (s : str) {struct fuel}
  : option (dict * str) :=
  match fuel with
  | O => None
  | S f =>
      match s with
      | [] => None
      | q :: t =>
          if negb (q =? 34)%N then None
          else
            match scanstring t with
            | None => None
            | Some (k, r) =>
                match skip_ws r with
                | [] => None
                | colon :: r1 =>
                    if negb (colon =? 58)%N then None
                    else
                      match scan_once f (skip_ws r1) with
                      | None => None
                      | Some (v, r2) =>
                          match skip_ws r2 with
                          | [] => None
                          | c :: r3 =>
                              if (c =? 125)%N then Some (dict_set acc k v, r3)
                              else if (c =? 44)%N
                              then parse_members f (dict_set acc k v) (skip_ws r3)
                              else None
                          end
                      end
                end
            end
      end
  end

(** Elements of an array, from the first character of a value. *)
with parse_elements (fuel : nat) (acc : list value) (s : str) {struct fuel}
  : option (list value * str) :=
  match fuel with
  | O => None
  | S f =>
      match scan_once f s with
      | None => None
      | Some (v, r) =>
          match skip_ws r with
          | [] => None
          | c :: r1 =>
              if (c =? 93)%N then Some (acc ++ [v], r1)
              else if (c =? 44)%N
              then parse_elements f (acc ++ [v]) (skip_ws r1)
              else None
          end
      end
  end.

(** [json.loads(s)]: one value, whitespace on either side, nothing else. *)
Definition loads (s : str) : option value :=
  match scan_once (S (length s)) (skip_ws s) with
  | Some (v, r) =>
      match skip_ws r with
      | [] => Some v
      | _ :: _ => None
      end
  | None => None
  end.

End Json.

(** ** Exceptions *)

Inductive exn : Type :=
| HTTPException (status_code : Z) (detail : value)
| AttributeError (obj : value) (attribute : str).

Inductive result (A : Type) : Type :=
| Return (a : A)
| Raise (e : exn).

Arguments Return {A} a.
Arguments Raise {A} e.

(** ** Prompt builders *)

Definition schema : list str :=
  [ lit "{";
    qlit "  'slides': [";
    lit "    {";
    qlit "      'type': 'overview|core_concepts|active_recall|examples|exam_tips',";
    qlit "      'title': 'string',";
    qlit "      'content': 'string'";
    lit "    }";
    lit "  ]";
    lit "}" ].

Definition build_prompt (topic : str) (n : Z) : str :=
  strip (join nl
    ([ [];
       lit "Return ONLY strict JSON. No markdown. No commentary.";
       [];
       lit "You are an expert academic coach.";
       [];
       lit "Create a " ++ of_Z n ++ qlit "-slide revision deck for the topic: '"
         ++ topic ++ qlit "'.";
       lit "Focus strongly on:";
       lit "1) Active Recall";
       lit "2) Structural Learning";
       [];
       lit "STRICT RULES:";
       lit "- Output MUST be valid JSON";
       lit "- Must start with { and end with }";
       lit "- No extra text before or after JSON";
       qlit "- 'slides' MUST be a JSON ARRAY (list)";
       lit "- EXACTLY " ++ of_Z n ++ lit " slides";
       lit "- Never return slides as an object/dict";
       [];
       lit "Schema:" ]
     ++ schema
     ++ [ [];
          lit "Slide requirements:";
          lit "- Each slide should be rich: 8" ++ [8211%N]
            ++ lit "12 bullet points OR detailed explanation";
          lit "- Assume exam revision: include definitions, key concepts, common traps/mistakes";
          lit "- Use \n for newlines in content";
          lit "- Ensure JSON is complete (quotes closed etc.)";
          [];
          lit "Now output ONLY the JSON.";
          [] ])).

Definition build_retry_prompt (topic : str) (n : Z) : str :=
  strip (join nl
    ([ [];
       lit "RETURN JSON ONLY.";
       [];
       lit "Schema:" ]
     ++ schema
     ++ [ [];
          lit "RULES:";
          lit "- slides MUST be an array";
          lit "- EXACTLY " ++ of_Z n ++ lit " slides";
          lit "- JSON only. Nothing else.";
          lit "- Keep content clear and complete.";
          lit "- Use \n between bullet points.";
          [];
          lit "TOPIC: " ++ topic;
          [] ])).

(** ** Helpers *)

Definition fence : str := lit "```".

Definition strip_markdown_fences (text : str) : str :=
  let t := strip text in
  let t :=
    if startswith t fence then
      let first_nl := find t nl in
      let t :=
        if negb (first_nl =? -1) then slice t (Some (first_nl + 1)) None
        else t in
      let last := rfind t fence in
      if negb (last =? -1) then slice t None (Some last) else t
    else t in
  strip t.

Definition force_json_only (text : str) : str :=
  let t := strip text in
  let start := find t (lit "{") in
  let end_ := rfind t (lit "}") in
  if (start =? -1) || (end_ =? -1) || (end_ <=? start) then t
  else strip (slice t (Some start) (Some (end_ + 1))).

Definition estimate_max_tokens (n : Z) : Z := Z.min 6500 (1200 + n * 350).

Definition invalid_json_detail (cleaned : str) : value :=
  VDict [ (lit "error", VStr (lit "Invalid JSON from model"));
          (lit "cleaned_preview", VStr (slice cleaned None (Some 900))) ].

Definition safe_json_load (raw : str) : result value :=
  let cleaned := force_json_only (strip_markdown_fences raw) in
  match Json.loads cleaned with
  | Some decoded => Return decoded
  | None => Raise (HTTPException 500 (invalid_json_detail cleaned))
  end.

Section Normalizer.

Context {rt : Runtime}.

Definition slide (slide_type title content : str) : dict :=
  [ (lit "type", VStr slide_type);
    (lit "title", VStr title);
    (lit "content", VStr content) ].

(** The body of the loop, for an entry that is a dict. *)
Definition coerce (s : dict) : dict :=
  let slide_type := strip (py_str (get s (lit "type") (VStr (lit "overview")))) in
  let title := strip (py_str (get s (lit "title") (VStr []))) in
  let content := strip (py_str (get s (lit "content") (VStr []))) in
  slide slide_type title content.

(** The loop over the entries; [final] is the list built so far. *)
Fixpoint normalize_entries (slides : list value) (final : list dict)
  : option (list dict) :=
  match slides with
  | [] => Some final
  | s :: rest =>
      match s with
      | VDict s => normalize_entries rest (final ++ [coerce s])
      | _ => None
      end
  end.

Definition normalize_slides (decoded : value) (n : Z)
  : result (option (list dict)) :=
  match decoded with
  | VDict decoded =>
      let slides := get decoded (lit "slides") VNone in
      let slides :=
        match slides with
        | VDict d => VList (values d)
        | _ => slides
        end in
      match slides with
      | VList slides =>
          let slides :=
            if len slides >? n then slice slides None (Some n) else slides in
          if negb (len slides =? n) then Return None
          else Return (normalize_entries slides [])
      | _ => Return None
      end
  | _ => Raise (AttributeError decoded (lit "get"))
  end.

End Normalizer.

(** ** The completion service and the monad of the endpoints *)

Module Request.
Record t : Type := {
  url : str;
  authorization : str;
  model : str;
  messages : list (str * str);
  temperature : float;
  max_tokens : Z;
  json_mode : bool;
  timeout : Z
}.
End Request.

(** What comes back: the status, the body as text, and, for a 200, the text
    of the first choice's message. *)
Module Reply.
Record t : Type := {
  status_code : Z;
  text : str;
  content : str
}.
End Reply.

(** The process environment, the service's answers by call number, and the
    requests sent so far. *)
Record world : Type := {
  GROQ_API_KEY : str;
  logo_exists : bool;
  remote : nat -> Reply.t;
  calls : list Request.t
}.

Definition M (A : Type) : Type := world -> result A * world.

Definition ret {A} (a : A) : M A := fun w => (Return a, w).

Definition raise {A} (e : exn) : M A := fun w => (Raise e, w).

Definition bind {A B} (m : M A) (k : A -> M B) : M B :=
  fun w =>
    match m w with
    | (Return a, w') => k a w'
    | (Raise e, w') => (Raise e, w')
    end.

Definition lift {A} (r : result A) : M A := fun w => (r, w).

Notation "x <- m ;; k" := (bind m (fun x => k))
  (at level 61, m at next level, right associativity).

Definition post (r : Request.t) (w : world) : world :=
  {| GROQ_API_KEY := GROQ_API_KEY w;
     logo_exists := logo_exists w;
     remote := remote w;
     calls := calls w ++ [r] |}.

Definition payload (key prompt model : str) (max_tokens : Z) (json_mode : bool)
  : Request.t :=
  {| Request.url := lit "https://api.groq.com/openai/v1/chat/completions";
     Request.authorization := lit "Bearer " ++ key;
     Request.model := model;
     Request.messages :=
       [ (lit "system",
          lit "You output ONLY valid JSON. Never add any other text.");
         (lit "user", prompt) ];
     Request.temperature := 0.25%float;
     Request.max_tokens := max_tokens;
     Request.json_mode := json_mode;
     Request.timeout := 90 |}.

Definition groq_chat (prompt model : str) (max_tokens : Z) (json_mode : bool)
  : M str :=
  fun w =>
    if negb (nonempty (GROQ_API_KEY w)) then
      (Raise (HTTPException 500 (VStr (lit "GROQ_API_KEY missing on server"))), w)
    else
      let resp := remote w (length (calls w)) in
      let w' := post (payload (GROQ_API_KEY w) prompt model max_tokens json_mode) w in
      if negb (Reply.status_code resp =? 200) then
        (Raise (HTTPException (Reply.status_code resp) (VStr (Reply.text resp))), w')
      else (Return (Reply.content resp), w').

(** ** PDF helpers *)

Definition wrap_step (max_chars : Z) (st : list str * str) (w : str)
  : list str * str :=
  let (lines, current) := st in
  if len current + len w + 1 <=? max_chars
  then (lines, strip (current ++ lit " " ++ w))
  else ((if nonempty current then lines ++ [current] else lines), w).

Definition wrap_text (text : str) (max_chars : Z) : list str :=
  let words := split text in
  let (lines, current) := fold_left (wrap_step max_chars) words ([], []) in
  if nonempty current then lines ++ [current] else lines.

Module Units.
Local Open Scope float_scope.
Definition inch : float := 72.0.
Definition cm : float := inch / 2.54.
Definition mm : float := cm * 0.1.
Definition A4 : float * float := (210 * mm, 297 * mm).
Definition width : float := fst A4.
Definition height : float := snd A4.
End Units.

Section Renderer.

Context {rt : Runtime}.

Import Units.
Local Open Scope float_scope.

Definition header_logo (logo : bool) : list canvas_op :=
  if logo
  then [drawImage (1.4 * cm) (height - 2.2 * cm) (5.5 * cm) (1.35 * cm)]
  else [].

Definition title_page (logo : bool) (topic : str) : list canvas_op :=
  [ setFillColor (lit "black"); rect 0 0 width height 1 ]
  ++ (if logo
      then [drawImage ((width - 16 * cm) / 2) (height - 7 * cm) (16 * cm) (4 * cm)]
      else [])
  ++ [ setFillColor (lit "white");
       setFont (lit "Helvetica-Bold") 28;
       drawCentredString (width / 2) (height - 10.2 * cm) (lit "SprintSlidesAI");
       setFont (lit "Helvetica") 16;
       setFillColor (lit "#9CA3AF");
       drawCentredString (width / 2) (height - 11.5 * cm) (lit "Topic: " ++ topic);
       setFont (lit "Helvetica") 11;
       setFillColor (lit "#6B7280");
       drawCentredString (width / 2) (2.2 * cm) (lit "Generated using Groq + FastAPI");
       showPage ].

(** A continuation page: background and header again. *)
Definition new_page (logo : bool) : list canvas_op :=
  [ showPage; setFillColor (lit "#0A0D14"); rect 0 0 width height 1 ]
  ++ header_logo logo
  ++ [ setFillColor (lit "#D1D5DB"); setFont (lit "Helvetica") 12 ].

(** The loop over the wrapped lines of one block; [y] is the cursor. *)
Fixpoint draw_lines (logo : bool) (y : float) (wrapped : list str)
  : list canvas_op * float :=
  match wrapped with
  | [] => ([], y)
  | ln :: rest =>
      let (brk, y1) :=
        if y <? 2.5 * cm then (new_page logo, height - 3.0 * cm) else ([], y) in
      let (ops, y2) := draw_lines logo (y1 - 14) rest in
      (brk ++ drawString (1.7 * cm) y1 ln :: ops, y2)
  end.

(** The loop over the blocks of a slide's content. *)
Fixpoint draw_blocks (logo : bool) (y : float) (blocks : list str)
  : list canvas_op * float :=
  match blocks with
  | [] => ([], y)
  | block :: rest =>
      let block := strip block in
      if negb (nonempty block) then draw_blocks logo (y - 10) rest
      else
        let (ops1, y1) := draw_lines logo y (wrap_text block 95) in
        let (ops2, y2) := draw_blocks logo y1 rest in
        (ops1 ++ ops2, y2)
  end.

Definition slide_type_of (s : dict) : str :=
  str_title (replace_char 95%N 32%N (py_str (get s (lit "type") (VStr (lit "slide"))))).

Definition title_of (s : dict) : str :=
  strip (py_str (get s (lit "title") (VStr (lit "Untitled")))).

Definition content_of (s : dict) : str :=
  strip (py_str (get s (lit "content") (VStr []))).

(** The content of a slide, laid out from the first cursor position. *)
Definition content_ops (logo : bool) (s : dict) : list canvas_op :=
  fst (draw_blocks logo (height - 6.0 * cm) (split_on 10%N [] (content_of s))).

Definition footer : str :=
  lit "SprintSlidesAI " ++ [8226%N] ++ lit " Study smarter " ++ [9889%N].

(** The pages of slide number [i] out of [total]. *)
Definition slide_pages (logo : bool) (total i : Z) (s : dict) : list canvas_op :=
  [ setFillColor (lit "#0A0D14"); rect 0 0 width height 1 ]
  ++ header_logo logo
  ++ [ setFillColor (lit "#9CA3AF");
       setFont (lit "Helvetica") 10;
       drawRightString (width - 1.6 * cm) (height - 1.7 * cm)
         (of_Z i ++ lit " / " ++ of_Z total);
       setFillColor (lit "#6366F1");
       setFont (lit "Helvetica-Bold") 11;
       drawString (1.5 * cm) (height - 3.2 * cm) (str_upper (slide_type_of s));
       setFillColor (lit "white");
       setFont (lit "Helvetica-Bold") 22;
       drawString (1.5 * cm) (height - 4.5 * cm) (title_of s);
       setStrokeColor (lit "#6366F1");
       setLineWidth 2;
       line (1.5 * cm) (height - 5.0 * cm) (6.0 * cm) (height - 5.0 * cm);
       setFillColor (lit "#D1D5DB");
       setFont (lit "Helvetica") 12 ]
  ++ content_ops logo s
  ++ [ setFillColor (lit "#6B7280");
       setFont (lit "Helvetica") 10;
       drawCentredString (width / 2) (1.4 * cm) footer;
       showPage ].

(** [for i, s in enumerate(slides, start=i)]. *)
Fixpoint all_slide_pages (logo : bool) (total i : Z) (slides : list dict)
  : list canvas_op :=
  match slides with
  | [] => []
  | s :: rest =>
      slide_pages logo total i s ++ all_slide_pages logo total (i + 1)%Z rest
  end.

Definition canvas_of (logo : bool) (topic : str) (slides : list dict)
  : list canvas_op :=
  title_page logo topic ++ all_slide_pages logo (len slides) 1 slides ++ [save].

Definition build_pdf (logo : bool) (topic : str) (slides : list dict)
  : list Byte.byte :=
  getpdfdata (canvas_of logo topic slides).

End Renderer.

(** ** Routes *)

Module DeckRequest.
Record t : Type := { topic : str; slideCount : option Z }.
End DeckRequest.

Module PdfRequest.
Record t : Type := { topic : str; slides : list dict }.
End PdfRequest.

Module Response.
Record t : Type := {
  content : list Byte.byte;
  media_type : str;
  headers : list (str * str)
}.
End Response.

(** [x or default] on an optional integer: [None] and [0] are falsy. *)
Definition or_default (x : option Z) (default : Z) : Z :=
  match x with
  | Some z => if z =? 0 then default else z
  | None => default
  end.

Definition llama : str := lit "llama-3.1-8b-instant".

Definition ok_payload (slides : list dict) : value :=
  VDict [ (lit "ok", VBool true); (lit "slides", VList (map VDict slides)) ].

Section Routes.

Context {rt : Runtime}.

Definition inconsistent_detail (n : Z) (decoded1 decoded2 : value) : value :=
  VDict
    [ (lit "error",
       VStr (lit "Model output inconsistent. Expected " ++ of_Z n ++ lit " slides."));
      (lit "attempt1_preview", VStr (slice (py_str decoded1) None (Some 900)));
      (lit "attempt2_preview", VStr (slice (py_str decoded2) None (Some 900))) ].

Definition generate_deck (req : DeckRequest.t) : M value :=
  let topic := strip (DeckRequest.topic req) in
  let n := or_default (DeckRequest.slideCount req) 5 in
  if negb (nonempty topic) then
    raise (HTTPException 400 (VStr (lit "topic is required")))
  else if (n <? 3) || (n >? 15) then
    raise (HTTPException 400 (VStr (lit "slideCount must be between 3 and 15")))
  else
    let model := llama in
    let max_tokens := estimate_max_tokens n in
    let prompt := build_prompt topic n in
    raw1 <- groq_chat prompt model max_tokens true ;;
    decoded1 <- lift (safe_json_load raw1) ;;
    slides <- lift (normalize_slides decoded1 n) ;;
    match slides with
    | Some slides => ret (ok_payload slides)
    | None =>
        let retry_prompt := build_retry_prompt topic n in
        raw2 <- groq_chat retry_prompt model (max_tokens + 1200) true ;;
        decoded2 <- lift (safe_json_load raw2) ;;
        slides <- lift (normalize_slides decoded2 n) ;;
        match slides with
        | None =>
            raise (HTTPException 500 (inconsistent_detail n decoded1 decoded2))
        | Some slides => ret (ok_payload slides)
        end
    end.

Definition pdf_response (logo : bool) (topic : str) (slides : list dict)
  : Response.t :=
  let pdf_bytes := build_pdf logo topic slides in
  let filename :=
    lit "SprintSlidesAI_" ++ replace_char 32%N 95%N topic ++ lit ".pdf" in
  {| Response.content := pdf_bytes;
     Response.media_type := lit "application/pdf";
     Response.headers :=
       [ (lit "Content-Disposition",
          qlit "attachment; filename='" ++ filename ++ qlit "'") ] |}.

Definition download_pdf (req : PdfRequest.t) : M Response.t :=
  let topic := strip (PdfRequest.topic req) in
  let slides := PdfRequest.slides req in
  if negb (nonempty topic) then
    raise (HTTPException 400 (VStr (lit "topic is required")))
  else if len slides =? 0 then
    raise (HTTPException 400 (VStr (lit "slides list is required")))
  else
    fun w => (Return (pdf_response (logo_exists w) topic slides), w).

Definition download_pdf_get (topic : str) (slideCount : Z) : M Response.t :=
  let topic := strip topic in
  let n := or_default (Some slideCount) 5 in
  if negb (nonempty topic) then
    raise (HTTPException 400 (VStr (lit "topic is required")))
  else if (n <? 3) || (n >? 15) then
    raise (HTTPException 400 (VStr (lit "slideCount must be between 3 and 15")))
  else
    let model := llama in
    let max_tokens := estimate_max_tokens n in
    let prompt := build_prompt topic n in
    raw1 <- groq_chat prompt model max_tokens true ;;
    decoded1 <- lift (safe_json_load raw1) ;;
    slides <- lift (normalize_slides decoded1 n) ;;
    match slides with
    | Some slides => fun w => (Return (pdf_response (logo_exists w) topic slides), w)
    | None =>
        let retry_prompt := build_retry_prompt topic n in
        raw2 <- groq_chat retry_prompt model (max_tokens + 1200) true ;;
        decoded2 <- lift (safe_json_load raw2) ;;
        slides <- lift (normalize_slides decoded2 n) ;;
        match slides with
        | None =>
            raise (HTTPException 500 (VStr (lit "Failed to generate slides for PDF")))
        | Some slides =>
            fun w => (Return (pdf_response (logo_exists w) topic slides), w)
        end
    end.

End Routes.

(** ** A runtime for ASCII text

    Case mapping restricted to the letters a-z and A-Z, every code point
    above U+007F taken as printable, a float printed as its numeral, and the
    canvas serialised as one byte per operation.  It agrees with CPython on
    ASCII strings without floats. *)

Module AsciiRuntime.

Definition is_lower (c : char) : bool := ((97 <=? c) && (c <=? 122))%N.
Definition is_upper (c : char) : bool := ((65 <=? c) && (c <=? 90))%N.
Definition to_upper (c : char) : char := if is_lower c then (c - 32)%N else c.
Definition to_lower (c : char) : char := if is_upper c then (c + 32)%N else c.

Fixpoint title_from (previous_is_cased : bool) (s : str) : str :=
  match s with
  | [] => []
  | c :: t =>
      (if previous_is_cased then to_lower c else to_upper c)
      :: title_from (is_lower c || is_upper c) t
  end.

Definition runtime : Runtime :=
  {| isprintable := fun _ => true;
     float_repr := fun numeral => numeral;
     str_upper := map to_upper;
     str_title := title_from false;
     getpdfdata := map (fun _ => Byte.x00) |}.

End AsciiRuntime.

(** ** Notions used to state the properties *)

(** Neither the first nor the last character is whitespace. *)
Definition trimmed (s : str) : Prop :=
  (forall c t, s = c :: t -> isspace c = false)
  /\ (forall c t, s = t ++ [c] -> isspace c = false).

(** The cleanup pipeline: fence stripping, then brace slicing. *)
Definition cleanup (raw : str) : str :=
  force_json_only (strip_markdown_fences raw).

(** [r] is what is left of [s] after some prefix. *)
Definition suffix (r s : str) : Prop := exists a, s = a ++ r.

(** [r] is left after a non-empty prefix of [s]. *)
Definition shorter (r s : str) : Prop :=
  suffix r s /\ (length r < length s)%nat.

(** A document wrapped in a fenced code block; [info] is what follows the
    opening fence on its line. *)
Definition fenced (info d : str) : str :=
  fence ++ info ++ nl ++ d ++ nl ++ fence.

Section NormalizerSpec.

Context {rt : Runtime}.

(** The [slides] field once a mapping has been turned into the sequence of
    its values. *)
Definition slides_sequence (decoded : dict) : option (list value) :=
  match get decoded (lit "slides") VNone with
  | VDict d => Some (values d)
  | VList l => Some l
  | _ => None
  end.

Fixpoint all_dicts (l : list value) : option (list dict) :=
  match l with
  | [] => Some []
  | VDict d :: t => option_map (cons d) (all_dicts t)
  | _ :: _ => None
  end.

(** Steps 4 to 6 of the normalizer, as the design describes them. *)
Definition normalize_spec (decoded : dict) (n : Z) : option (list dict) :=
  match slides_sequence decoded with
  | None => None
  | Some l =>
      if (0 <=? n) && (n <=? len l)
      then option_map (map coerce) (all_dicts (firstn (Z.to_nat n) l))
      else None
  end.

(** A slide as the normalizer emits it: the three fields, each a string
    without surrounding whitespace. *)
Definition normal_slide (s : dict) : Prop :=
  exists slide_type title content,
    s = slide slide_type title content
    /\ trimmed slide_type /\ trimmed title /\ trimmed content.

(** The normalizer on raw text, as both endpoints run it: clean and decode,
    then normalize. *)
Definition normalizer (raw : str) (n : Z) : result (option (list dict)) :=
  match safe_json_load raw with
  | Return decoded => normalize_slides decoded n
  | Raise e => Raise e
  end.


End NormalizerSpec.

(** *** Layout *)


(** A word as [split] yields them: not empty, no whitespace inside. *)
Definition word (w : str) : Prop :=
  w <> [] /\ forallb (fun c => negb (isspace c)) w = true.


(** The texts written by [drawString], in order. *)
Definition drawn (ops : list canvas_op) : list str :=
  flat_map (fun op => match op with drawString _ _ text => [text] | _ => [] end)
    ops.

Definition bottom_margin : float := (2.5 * Units.cm)%float.


Definition is_showPage (op : canvas_op) : bool :=
  match op with
  | showPage => true
  | _ => false
  end.

(** The number of physical pages a sequence of operations closes. *)
Definition page_count (ops : list canvas_op) : nat :=
  length (filter is_showPage ops).

(** Where the cursor would stand for each wrapped line if everything were
    laid out on a single page. *)
Fixpoint one_page_lines (y : float) (wrapped : list str) : list float * float :=
  match wrapped with
  | [] => ([], y)
  | _ :: rest =>
      let (ps, y') := one_page_lines (y - 14)%float rest in (y :: ps, y')
  end.

Fixpoint one_page_blocks (y : float) (blocks : list str) : list float :=
  match blocks with
  | [] => []
  | block :: rest =>
      let block := strip block in
      if negb (nonempty block) then one_page_blocks (y - 10)%float rest
      else
        let (ps, y1) := one_page_lines y (wrap_text block 95) in
        ps ++ one_page_blocks y1 rest
  end.

(** The content needs more vertical space than one page holds. *)
Definition overflows (y : float) (blocks : list str) : bool :=
  existsb (fun p => (p <? bottom_margin)%float) (one_page_blocks y blocks).

Definition is_drawImage (op : canvas_op) : bool :=
  match op with
  | drawImage _ _ _ _ => true
  | _ => false
  end.

(** The number of times the logo is drawn. *)
Definition image_count (ops : list canvas_op) : nat :=
  length (filter is_drawImage ops).

(** The texts written by [drawRightString], in order. *)
Definition drawn_right (ops : list canvas_op) : list str :=
  flat_map
    (fun op => match op with drawRightString _ _ text => [text] | _ => [] end)
    ops.

(** The texts written by [drawCentredString], in order. *)
Definition drawn_centred (ops : list canvas_op) : list str :=
  flat_map
    (fun op => match op with drawCentredString _ _ text => [text] | _ => [] end)
    ops.

(** The file name the two PDF endpoints offer for a topic. *)
Definition filename (topic : str) : str :=
  lit "SprintSlidesAI_" ++ replace_char 32%N 95%N topic ++ lit ".pdf".

(** A finished line of wrapped text: not empty, no whitespace at either end,
    and no longer than [m] characters unless it is one of the [known]
    words. *)
Definition fits (m : Z) (known : str -> Prop) (l : str) : Prop :=
  l <> [] /\ trimmed l /\ (len l <= m \/ known l).


(** *** Requests *)

(** The request of attempt 1 and the request of attempt 2. *)
Definition first_request (key topic : str) (n : Z) : Request.t :=
  payload key (build_prompt topic n) llama (estimate_max_tokens n) true.

Definition retry_request (key topic : str) (n : Z) : Request.t :=
  payload key (build_retry_prompt topic n) llama
    (estimate_max_tokens n + 1200) true.

(** [w'] is [w] after the requests [sent], and nothing else has changed. *)
Definition sends (w w' : world) (sent : list Request.t) : Prop :=
  GROQ_API_KEY w' = GROQ_API_KEY w
  /\ logo_exists w' = logo_exists w
  /\ remote w' = remote w
  /\ calls w' = calls w ++ sent.

(** Every field of a structured error detail other than [error] is a string
    of at most 900 characters. *)
Definition previews_bounded (detail : value) : Prop :=
  forall d k v,
    detail = VDict d -> In (k, v) d -> k <> lit "error" ->
    exists preview, v = VStr preview /\ len preview <= 900.

(** ** Sample inputs *)

Module Samples.

Definition reply (s : str) : Reply.t :=
  {| Reply.status_code := 200; Reply.text := s; Reply.content := s |}.

(** A configured server that has sent nothing yet. *)
Definition server (answers : nat -> Reply.t) : world :=
  {| GROQ_API_KEY := lit "gsk";
     logo_exists := false;
     remote := answers;
     calls := [] |}.

Definition photosynthesis (slideCount : Z) : DeckRequest.t :=
  {| DeckRequest.topic := lit "Photosynthesis";
     DeckRequest.slideCount := Some slideCount |}.

Definition keyed : list (str * dict) :=
  [ (lit "first", [(lit "title", VStr (lit " Light "))]);
    (lit "second", [(lit "type", VStr (lit "examples"))]) ].


(** A slide whose content is forty-four one-word lines. *)
Definition long_slide : dict :=
  [(lit "content", VStr (join nl (repeat (lit "x") 44)))].

(** A server without a credential. *)
Definition unconfigured : world :=
  {| GROQ_API_KEY := [];
     logo_exists := false;
     remote := fun _ => reply [];
     calls := [] |}.

(** An answer of the service when it is unavailable. *)
Definition unavailable : Reply.t :=
  {| Reply.status_code := 503;
     Reply.text := lit "Service Unavailable";
     Reply.content := [] |}.

(** Two slides where three are asked for. *)
Definition two_slides : str :=
  qlit "{'slides': [{'title': 'A'}, {'title': 'B'}]}".

(** Three slides under the keys of an object. *)
Definition three_keyed_slides : str :=
  qlit "{'slides': {'1': {'title': 'A'}, '2': {'title': 'B'}, '3': {'title': 'C'}}}".

End Samples.

(** * Properties *)

(** ** Strings and slices *)

Lemma eqb_refl (a : str) : Str.eqb a a = true.
Proof.
  induction a as [|c a IH]; simpl; [reflexivity|].
  now rewrite N.eqb_refl, IH.
Qed.

Lemma eqb_eq (a b : str) : Str.eqb a b = true <-> a = b.
Proof.
  split; [|intros ->; apply eqb_refl].
  revert b; induction a as [|x a IH]; intros [|y b]; simpl; try congruence.
  intros H; apply andb_prop in H as [Hx Hab].
  apply N.eqb_eq in Hx; subst; f_equal; auto.
Qed.

Lemma lstrip_app (a b : str) :
  lstrip (a ++ b) =
  match lstrip a with
  | [] => lstrip b
  | _ :: _ => lstrip a ++ b
  end.
Proof.
  induction a as [|c a IH]; simpl; [reflexivity|].
  destruct (isspace c); [exact IH | reflexivity].
Qed.

Lemma lstrip_head (s : str) c t : lstrip s = c :: t -> isspace c = false.
Proof.
  induction s as [|x s IH]; simpl; [discriminate|].
  destruct (isspace x) eqn:E; [exact IH|].
  intros H; injection H as -> _; exact E.
Qed.

Lemma lstrip_nonspace c t : isspace c = false -> lstrip (c :: t) = c :: t.
Proof. intros H; simpl; now rewrite H. Qed.

(** [rstrip] read from the left. *)
Lemma rstrip_cons c t :
  rstrip (c :: t) =
  match rstrip t with
  | [] => if isspace c then [] else [c]
  | _ :: _ => c :: rstrip t
  end.
Proof.
  unfold rstrip; simpl rev; rewrite lstrip_app.
  destruct (lstrip (rev t)) as [|x l] eqn:E.
  - simpl; destruct (isspace c); reflexivity.
  - rewrite rev_app_distr.
    assert (R : rev (x :: l) <> []).
    { intros R; apply (f_equal (@length _)) in R.
      rewrite length_rev in R; discriminate. }
    destruct (rev (x :: l)); [congruence|reflexivity].
Qed.

Lemma rstrip_nil : rstrip [] = [].
Proof. reflexivity. Qed.

Lemma rstrip_last (s : str) c t : rstrip s = t ++ [c] -> isspace c = false.
Proof.
  unfold rstrip; intros H.
  apply (f_equal (@rev _)) in H.
  rewrite rev_involutive, rev_app_distr in H; simpl in H.
  eapply lstrip_head; eassumption.
Qed.

Lemma rstrip_head (s : str) c t : rstrip s = c :: t -> exists t', s = c :: t'.
Proof.
  destruct s as [|x s]; [discriminate|].
  rewrite rstrip_cons.
  destruct (rstrip s); [destruct (isspace x)|]; intros H;
    try discriminate; injection H as -> _; eauto.
Qed.

Lemma strip_trimmed (s : str) : trimmed (strip s).
Proof.
  unfold strip; split; intros c t H.
  - destruct (rstrip_head _ _ _ H) as [t' H'].
    eapply lstrip_head; eassumption.
  - eapply rstrip_last; eassumption.
Qed.

Lemma rstrip_fix (s : str) :
  (forall c t, s = t ++ [c] -> isspace c = false) -> rstrip s = s.
Proof.
  intros H; unfold rstrip.
  destruct (rev s) as [|c r] eqn:E.
  - apply (f_equal (@rev _)) in E; rewrite rev_involutive in E; now subst.
  - assert (Hs : s = rev r ++ [c]).
    { apply (f_equal (@rev _)) in E; now rewrite rev_involutive in E. }
    rewrite lstrip_nonspace by (eapply H; eassumption).
    now rewrite <- E, rev_involutive.
Qed.

Lemma strip_fix (s : str) : trimmed s -> strip s = s.
Proof.
  intros [Hh Hl]; unfold strip.
  destruct s as [|c t]; [reflexivity|].
  rewrite lstrip_nonspace by (eapply Hh; reflexivity).
  now apply rstrip_fix.
Qed.

Lemma len_nonneg {A} (l : list A) : 0 <= len l.
Proof. unfold len; lia. Qed.

Lemma slice_to {A} (l : list A) (n : Z) :
  0 <= n -> slice l None (Some n) = firstn (Z.to_nat n) l.
Proof.
  intros Hn; unfold slice, clamp.
  destruct (Z.ltb_spec n 0); [lia|].
  rewrite Z.sub_0_r; simpl skipn.
  destruct (Z.le_gt_cases n (Z.of_nat (length l))).
  - now rewrite Z.min_l.
  - rewrite Z.min_r, Nat2Z.id, firstn_all by lia.
    symmetry; apply firstn_all2; lia.
Qed.

Lemma len_firstn {A} (l : list A) (n : Z) :
  0 <= n <= len l -> len (firstn (Z.to_nat n) l) = n.
Proof. unfold len; intros; rewrite length_firstn; lia. Qed.

(** ** The normalizer *)

Section NormalizerFacts.

Context {rt : Runtime}.

Lemma normalize_entries_spec (l : list value) (final : list dict) :
  normalize_entries l final =
  option_map (fun ds => final ++ map coerce ds) (all_dicts l).
Proof.
  revert final; induction l as [|v l IH]; intros final; simpl.
  - now rewrite app_nil_r.
  - destruct v; try reflexivity.
    rewrite IH; destruct (all_dicts l); simpl; [|reflexivity].
    now rewrite <- app_assoc.
Qed.

Lemma normalize_list (l : list value) (n : Z) :
  (let slides := if len l >? n then slice l None (Some n) else l in
   if negb (len slides =? n) then Return None
   else Return (normalize_entries slides []))
  = Return (if (0 <=? n) && (n <=? len l)
            then option_map (map coerce) (all_dicts (firstn (Z.to_nat n) l))
            else None).
Proof.
  cbv zeta.
  pose proof (len_nonneg l) as Hl.
  destruct (Z.gtb_spec (len l) n) as [Hgt|Hle].
  - destruct (Z.leb_spec 0 n) as [Hn|Hn]; simpl andb.
    + rewrite slice_to by assumption.
      destruct (Z.leb_spec n (len l)); [|lia].
      rewrite len_firstn, Z.eqb_refl by lia; simpl.
      rewrite normalize_entries_spec.
      now destruct (all_dicts _).
    + pose proof (len_nonneg (slice l None (Some n))).
      destruct (Z.eqb_spec (len (slice l None (Some n))) n); [lia|reflexivity].
  - destruct (Z.eqb_spec (len l) n) as [He|Hne]; simpl.
    + subst n. destruct (Z.leb_spec 0 (len l)); [|lia].
      rewrite Z.leb_refl; simpl.
      unfold len; rewrite Nat2Z.id, firstn_all, normalize_entries_spec.
      now destruct (all_dicts _).
    + destruct (Z.leb_spec n (len l)); [lia|].
      now rewrite andb_false_r.
Qed.

(** On a decoded object the code computes what the design describes. *)
Lemma normalize_slides_spec (decoded : dict) (n : Z) :
  normalize_slides (VDict decoded) n = Return (normalize_spec decoded n).
Proof.
  unfold normalize_slides, normalize_spec, slides_sequence.
  destruct (get decoded (lit "slides") VNone); try reflexivity;
    apply normalize_list.
Qed.

Lemma all_dicts_length (l : list value) (ds : list dict) :
  all_dicts l = Some ds -> length ds = length l.
Proof.
  revert ds; induction l as [|v l IH]; simpl; intros ds H.
  - now injection H as <-.
  - destruct v; try discriminate.
    destruct (all_dicts l); simpl in H; [|discriminate].
    injection H as <-; simpl; f_equal; auto.
Qed.

Lemma all_dicts_map (ds : list dict) : all_dicts (map VDict ds) = Some ds.
Proof. induction ds as [|d ds IH]; simpl; [|rewrite IH]; reflexivity. Qed.


Lemma normalize_spec_length (decoded : dict) (n : Z) (slides : list dict) :
  normalize_spec decoded n = Some slides -> len slides = n.
Proof.
  unfold normalize_spec.
  destruct (slides_sequence decoded) as [l|]; [|discriminate].
  destruct (Z.leb_spec 0 n); [|discriminate].
  destruct (Z.leb_spec n (len l)); [|discriminate]; simpl.
  destruct (all_dicts _) as [ds|] eqn:E; [|discriminate].
  intros Hs; injection Hs as <-.
  apply all_dicts_length in E.
  unfold len in *; rewrite length_map, E, length_firstn; lia.
Qed.

Lemma coerce_normal (s : dict) : normal_slide (coerce s).
Proof.
  unfold coerce; do 3 eexists; split; [reflexivity|].
  repeat split; apply strip_trimmed.
Qed.

Lemma normalize_spec_normal (decoded : dict) (n : Z) (slides : list dict) :
  normalize_spec decoded n = Some slides -> Forall normal_slide slides.
Proof.
  unfold normalize_spec.
  destruct (slides_sequence decoded) as [l|]; [|discriminate].
  destruct (_ && _); [|discriminate].
  destruct (all_dicts _) as [ds|]; [|discriminate].
  intros H; injection H as <-.
  apply Forall_forall; intros s Hs.
  apply in_map_iff in Hs as (d & <- & _); apply coerce_normal.
Qed.

Lemma dict_get_set (d : dict) (k : str) (v : value) :
  dict_get (dict_set d k v) k = Some v.
Proof.
  induction d as [|[k' v'] d IH]; simpl.
  - now rewrite eqb_refl.
  - destruct (Str.eqb k' k) eqn:E; simpl; rewrite E; auto.
Qed.

Lemma normalize_slides_some (decoded : value) (n : Z) (slides : list dict) :
  normalize_slides decoded n = Return (Some slides) ->
  len slides = n /\ Forall normal_slide slides.
Proof.
  destruct decoded; try discriminate.
  rewrite normalize_slides_spec; intros H; injection H as H; split.
  - eapply normalize_spec_length; eassumption.
  - eapply normalize_spec_normal; eassumption.
Qed.

(** C4. A [slides] field that is a mapping of [n] objects normalizes to the
    coerced objects in the insertion order of the keys, exactly as the array
    of its values does. *)
Theorem slides_mapping_normalizes_in_insertion_order :
  forall (decoded : dict) (entries : list (str * dict)) (n : Z),
    dict_get decoded (lit "slides")
      = Some (VDict (map (fun e => (fst e, VDict (snd e))) entries)) ->
    len entries = n ->
    normalize_slides (VDict decoded) n
      = Return (Some (map (fun e => coerce (snd e)) entries))
    /\ normalize_slides
         (VDict (dict_set decoded (lit "slides")
                   (VList (map (fun e => VDict (snd e)) entries)))) n
       = normalize_slides (VDict decoded) n.
Proof.
  intros decoded entries n Hget Hlen.
  assert (Hv : values (map (fun e => (fst e, VDict (snd e))) entries)
               = map VDict (map snd entries)).
  { unfold values; rewrite !map_map; reflexivity. }
  assert (Hl : len (map VDict (map snd entries)) = n).
  { unfold len in *; now rewrite !length_map. }
  assert (Hn : (0 <=? n) && (n <=? len (map VDict (map snd entries))) = true).
  { rewrite Hl, Z.leb_refl, andb_true_r. apply Z.leb_le. unfold len in Hlen; lia. }
  assert (Hf : firstn (Z.to_nat n) (map VDict (map snd entries))
               = map VDict (map snd entries)).
  { apply firstn_all2. unfold len in Hl; lia. }
  assert (Hm : map (fun e => VDict (snd e)) entries = map VDict (map snd entries)).
  { now rewrite map_map. }
  rewrite !normalize_slides_spec; unfold normalize_spec, slides_sequence, get.
  rewrite dict_get_set, Hget, Hv, Hm, Hn, Hf, all_dicts_map; simpl.
  now rewrite map_map.
Qed.

(** C5. When the sequence holds more than [n] entries the result is computed
    from its first [n] entries alone; when it holds fewer, the result is
    absence. *)
Theorem surplus_truncated_and_shortfall_rejected :
  forall (decoded : dict) (l : list value) (n : Z),
    slides_sequence decoded = Some l ->
    0 <= n ->
    (forall k, 0 < k -> len l = n + k ->
       normalize_slides (VDict decoded) n
         = Return (option_map (map coerce) (all_dicts (firstn (Z.to_nat n) l)))
       /\ normalize_slides (VDict decoded) n
          = normalize_slides
              (VDict [(lit "slides", VList (firstn (Z.to_nat n) l))]) n
       /\ forall ds rest, l = map VDict ds ++ rest -> len ds = n ->
            normalize_slides (VDict decoded) n = Return (Some (map coerce ds)))
    /\ (len l < n -> normalize_slides (VDict decoded) n = Return None).
Proof.
  intros decoded l n Hseq Hn; split.
  - intros k Hk Hlen.
    assert (Hfirst : normalize_slides (VDict decoded) n
       = Return (option_map (map coerce) (all_dicts (firstn (Z.to_nat n) l)))).
    { rewrite normalize_slides_spec; unfold normalize_spec; rewrite Hseq.
      destruct (Z.leb_spec 0 n); [|lia].
      destruct (Z.leb_spec n (len l)); [reflexivity|lia]. }
    split; [exact Hfirst|split].
    + rewrite Hfirst, normalize_slides_spec.
      unfold normalize_spec, slides_sequence, get; simpl dict_get.
      destruct (Z.leb_spec 0 n); [|lia].
      rewrite len_firstn, Z.leb_refl, firstn_firstn, Nat.min_id by lia.
      reflexivity.
    + intros ds rest -> Hds.
      rewrite Hfirst. unfold len in Hds.
      replace (Z.to_nat n) with (length (map VDict ds) + 0)%nat
        by (rewrite length_map; lia).
      rewrite firstn_app_2; simpl; rewrite app_nil_r, all_dicts_map.
      reflexivity.
  - intros Hlt.
    rewrite normalize_slides_spec; unfold normalize_spec; rewrite Hseq.
    destruct (Z.leb_spec n (len l)); [lia|]. now rewrite andb_false_r.
Qed.


End NormalizerFacts.

(** ** The orchestrator *)

Section RoutesFacts.

Context {rt : Runtime}.

Lemma groq_chat_ok (prompt model : str) (max_tokens : Z) (json_mode : bool)
    (w : world) :
  nonempty (GROQ_API_KEY w) = true ->
  Reply.status_code (remote w (length (calls w))) = 200 ->
  groq_chat prompt model max_tokens json_mode w
  = (Return (Reply.content (remote w (length (calls w)))),
     post (payload (GROQ_API_KEY w) prompt model max_tokens json_mode) w).
Proof.
  intros Hk Hs; unfold groq_chat; now rewrite Hk, Hs.
Qed.


Lemma length_calls_post (r : Request.t) (w : world) :
  length (calls (post r w)) = S (length (calls w)).
Proof. simpl; rewrite length_app; simpl; lia. Qed.

Lemma safe_json_load_cleanup (raw : str) :
  safe_json_load raw =
  match Json.loads (cleanup raw) with
  | Some decoded => Return decoded
  | None => Raise (HTTPException 500 (invalid_json_detail (cleanup raw)))
  end.
Proof. reflexivity. Qed.

Lemma in_range (n : Z) : 3 <= n <= 15 -> (n <? 3) || (n >? 15) = false.
Proof.
  intros H; destruct (Z.ltb_spec n 3); [lia|].
  destruct (Z.gtb_spec n 15); [lia|reflexivity].
Qed.

Lemma out_of_range (n : Z) : n < 3 \/ 15 < n -> (n <? 3) || (n >? 15) = true.
Proof.
  intros H; destruct (Z.ltb_spec n 3); [reflexivity|].
  destruct (Z.gtb_spec n 15); [reflexivity|lia].
Qed.

(** An empty topic, or a count that [or_default] leaves outside 3..15, is
    refused with status 400 and no request is sent. *)
Lemma validation_rejects_before_any_call (req : DeckRequest.t) (w : world) :
  let n := or_default (DeckRequest.slideCount req) 5 in
  strip (DeckRequest.topic req) = [] \/ n < 3 \/ 15 < n ->
  exists message,
    generate_deck req w = (Raise (HTTPException 400 (VStr message)), w).
Proof.
  intros n H; unfold generate_deck; fold n.
  destruct (strip (DeckRequest.topic req)) as [|c t]; simpl negb.
  - eexists; reflexivity.
  - destruct H as [H|H]; [discriminate|].
    rewrite (out_of_range n H). eexists; reflexivity.
Qed.

Lemma slideCount_boundaries :
  or_default (Some 2) 5 < 3 /\ 15 < or_default (Some 16) 5
  /\ 3 <= or_default (Some 3) 5 <= 15 /\ 3 <= or_default (Some 15) 5 <= 15
  /\ or_default None 5 = 5.
Proof. cbv; repeat split; congruence. Qed.

(** C3 (where the code departs from it). A [slideCount] of 0 lies outside
    3..15, yet the request is not refused: [or_default] turns it into 5 and
    the primary prompt for five slides is sent to the completion service. *)
Theorem slideCount_zero_is_generated_as_five :
  forall (topic : str) (w : world),
    nonempty (strip topic) = true ->
    nonempty (GROQ_API_KEY w) = true ->
    let req := {| DeckRequest.topic := topic; DeckRequest.slideCount := Some 0 |} in
    generate_deck req w
    = generate_deck
        {| DeckRequest.topic := topic; DeckRequest.slideCount := Some 5 |} w
    /\ exists rest,
         calls (snd (generate_deck req w))
         = calls w
           ++ payload (GROQ_API_KEY w) (build_prompt (strip topic) 5) llama
                (estimate_max_tokens 5) true
              :: rest.
Proof.
  intros topic w Ht Hk req; split; [reflexivity|].
  unfold generate_deck, req.
  cbn [DeckRequest.topic DeckRequest.slideCount or_default Z.eqb].
  rewrite Ht, in_range by lia; cbn [negb].
  unfold bind at 1, groq_chat; rewrite Hk; simpl negb; cbv iota.
  set (first := payload _ _ _ _ _).
  assert (Hpost : forall w', (exists rest, calls w' = calls (post first w) ++ rest)
            -> exists rest, calls w' = calls w ++ first :: rest).
  { intros w' [rest H]; exists rest; rewrite H; simpl.
    now rewrite <- app_assoc. }
  destruct (negb _); [apply Hpost; exists []; now rewrite app_nil_r|].
  unfold bind at 1, lift at 1.
  destruct (safe_json_load _) as [decoded1|e];
    [|apply Hpost; exists []; now rewrite app_nil_r].
  unfold bind at 1, lift at 1.
  destruct (normalize_slides decoded1 5) as [[slides|]|e];
    try (apply Hpost; exists []; now rewrite app_nil_r).
  apply Hpost.
  unfold bind at 1, groq_chat.
  simpl GROQ_API_KEY; rewrite Hk; simpl negb; cbv iota.
  set (second := payload _ _ _ _ _).
  assert (Hpost2 : forall w', calls w' = calls (post second (post first w))
            -> exists rest, calls w' = calls (post first w) ++ rest).
  { intros w' H; exists [second]; rewrite H; reflexivity. }
  destruct (negb _); [apply Hpost2; reflexivity|].
  unfold bind at 1, lift at 1.
  destruct (safe_json_load _) as [decoded2|e]; [|apply Hpost2; reflexivity].
  unfold bind at 1, lift at 1.
  destruct (normalize_slides decoded2 5) as [[slides|]|e];
    apply Hpost2; reflexivity.
Qed.


(** C1 (as the code has it). Text that does not decode ends generation at
    once with the "Invalid JSON from model" error, after a single request on
    attempt 1: no retry is made. The retry, with the retry prompt and 1200
    more tokens, is made when attempt 1 decodes to an object that fails
    normalization; it ends with the error that previews both decoded attempts
    when attempt 2 also decodes and fails normalization, and with the
    "Invalid JSON" error of attempt 2 when that text does not decode. *)
Theorem undecodable_text_is_terminal_and_shape_failure_retries_once :
  forall (req : DeckRequest.t) (w : world),
    let topic := strip (DeckRequest.topic req) in
    let n := or_default (DeckRequest.slideCount req) 5 in
    let budget := estimate_max_tokens n in
    let first := payload (GROQ_API_KEY w) (build_prompt topic n) llama budget true in
    let second :=
      payload (GROQ_API_KEY w) (build_retry_prompt topic n) llama
        (budget + 1200) true in
    let reply1 := remote w (length (calls w)) in
    let reply2 := remote w (S (length (calls w))) in
    let raw1 := Reply.content reply1 in
    let raw2 := Reply.content reply2 in
    nonempty topic = true ->
    3 <= n <= 15 ->
    nonempty (GROQ_API_KEY w) = true ->
    Reply.status_code reply1 = 200 ->
    (Json.loads (cleanup raw1) = None ->
     generate_deck req w
     = (Raise (HTTPException 500 (invalid_json_detail (cleanup raw1))),
        post first w))
    /\ (forall decoded1,
          Json.loads (cleanup raw1) = Some (VDict decoded1) ->
          normalize_slides (VDict decoded1) n = Return None ->
          Reply.status_code reply2 = 200 ->
          snd (generate_deck req w) = post second (post first w)
          /\ (Json.loads (cleanup raw2) = None ->
              fst (generate_deck req w)
              = Raise (HTTPException 500 (invalid_json_detail (cleanup raw2))))
          /\ (forall decoded2,
                Json.loads (cleanup raw2) = Some (VDict decoded2) ->
                normalize_slides (VDict decoded2) n = Return None ->
                fst (generate_deck req w)
                = Raise (HTTPException 500
                           (inconsistent_detail n (VDict decoded1) (VDict decoded2))))).
Proof.
  intros req w topic n budget first second reply1 reply2 raw1 raw2 Ht Hn Hk Hs1.
  assert (Hgen : generate_deck req w
    = match safe_json_load raw1 with
      | Raise e => (Raise e, post first w)
      | Return decoded1 =>
          match normalize_slides decoded1 n with
          | Raise e => (Raise e, post first w)
          | Return (Some slides) => (Return (ok_payload slides), post first w)
          | Return None =>
              (raw2 <- groq_chat (build_retry_prompt topic n) llama
                         (budget + 1200) true ;;
               decoded2 <- lift (safe_json_load raw2) ;;
               slides <- lift (normalize_slides decoded2 n) ;;
               match slides with
               | None =>
                   raise (HTTPException 500 (inconsistent_detail n decoded1 decoded2))
               | Some slides => ret (ok_payload slides)
               end) (post first w)
          end
      end).
  { unfold generate_deck; fold topic; fold n; fold budget.
    rewrite Ht, in_range by assumption; cbn [negb].
    unfold bind at 1; rewrite groq_chat_ok by assumption.
    fold reply1; fold raw1; fold first.
    unfold bind at 1, lift at 1.
    destruct (safe_json_load raw1) as [decoded1|e]; [|reflexivity].
    unfold bind at 1, lift at 1.
    destruct (normalize_slides decoded1 n) as [[slides|]|e]; reflexivity. }
  rewrite Hgen, safe_json_load_cleanup; split.
  - intros ->; reflexivity.
  - intros decoded1 -> -> Hs2.
    set (w2 := post second (post first w)).
    assert (Hretry :
      (raw2 <- groq_chat (build_retry_prompt topic n) llama (budget + 1200) true ;;
       decoded2 <- lift (safe_json_load raw2) ;;
       slides <- lift (normalize_slides decoded2 n) ;;
       match slides with
       | None =>
           raise (HTTPException 500 (inconsistent_detail n (VDict decoded1) decoded2))
       | Some slides => ret (ok_payload slides)
       end) (post first w)
      = match Json.loads (cleanup raw2) with
        | None => (Raise (HTTPException 500 (invalid_json_detail (cleanup raw2))), w2)
        | Some decoded2 =>
            match normalize_slides decoded2 n with
            | Raise e => (Raise e, w2)
            | Return (Some slides) => (Return (ok_payload slides), w2)
            | Return None =>
                (Raise (HTTPException 500
                          (inconsistent_detail n (VDict decoded1) decoded2)), w2)
            end
        end).
    { unfold bind at 1.
      rewrite groq_chat_ok;
        [|assumption|rewrite length_calls_post; exact Hs2].
      rewrite length_calls_post.
      change (remote (post first w)) with (remote w).
      change (GROQ_API_KEY (post first w)) with (GROQ_API_KEY w).
      fold reply2; fold raw2; fold second; fold w2.
      unfold bind at 1, lift at 1; rewrite safe_json_load_cleanup.
      destruct (Json.loads (cleanup raw2)) as [decoded2|]; [|reflexivity].
      unfold bind at 1, lift at 1.
      destruct (normalize_slides decoded2 n) as [[?|]|?]; reflexivity. }
    rewrite Hretry; clear Hretry.
    destruct (Json.loads (cleanup raw2)) as [decoded2|].
    + split; [destruct (normalize_slides decoded2 n) as [[?|]|?]; reflexivity|].
      split; [discriminate|].
      intros d2 Hd2; injection Hd2 as ->; intros ->; reflexivity.
    + split; [reflexivity|]. split; [reflexivity|discriminate].
Qed.


(** A deck that [/generateDeck] returns is whole. *)
Lemma generate_deck_returns_whole_deck (req : DeckRequest.t) (w w' : world)
    (v : value) :
  generate_deck req w = (Return v, w') ->
  exists slides,
    v = ok_payload slides
    /\ len slides = or_default (DeckRequest.slideCount req) 5
    /\ Forall normal_slide slides.
Proof.
  unfold generate_deck.
  set (n := or_default (DeckRequest.slideCount req) 5).
  destruct (negb (nonempty _)); [discriminate|].
  destruct ((n <? 3) || (n >? 15)); [discriminate|].
  unfold bind, lift, ret, raise.
  repeat match goal with
    | |- context [groq_chat ?p ?m ?t ?j ?w0] =>
        destruct (groq_chat p m t j w0) as [[?|?] ?]
    | |- context [safe_json_load ?r] => destruct (safe_json_load r)
    | |- context [normalize_slides ?d ?k] =>
        let E := fresh "E" in
        destruct (normalize_slides d k) as [[?|]|?] eqn:E
    end;
    try discriminate;
    intros H; injection H as <- _;
    match goal with
    | E : normalize_slides _ _ = Return (Some ?l) |- _ =>
        exists l; split; [reflexivity|exact (normalize_slides_some _ _ _ E)]
    end.
Qed.

(** C2 (as the code has it). Text that does not decode is reported by
    raising the structured "Invalid JSON from model" error, not by an absence
    value. Text that decodes to an object never raises: the result is either
    absence or exactly [n] slides, each with its three trimmed string fields.
    So no partial deck is returned: what [/generateDeck] returns holds as
    many slides as were asked for. *)
Theorem normalizer_raises_invalid_json_or_returns_whole_deck :
  forall (raw : str) (n : Z),
    let cleaned := cleanup raw in
    ((Json.loads cleaned = None
      /\ normalizer raw n = Raise (HTTPException 500 (invalid_json_detail cleaned)))
     \/ (exists decoded,
           Json.loads cleaned = Some decoded
           /\ normalizer raw n = normalize_slides decoded n
           /\ forall d, decoded = VDict d ->
                normalizer raw n = Return None
                \/ exists slides,
                     normalizer raw n = Return (Some slides)
                     /\ len slides = n
                     /\ Forall normal_slide slides))
    /\ (forall req w w' v,
          generate_deck req w = (Return v, w') ->
          exists slides,
            v = ok_payload slides
            /\ len slides = or_default (DeckRequest.slideCount req) 5
            /\ Forall normal_slide slides).
Proof.
  intros raw n cleaned; split;
    [|intros req w w' v; apply generate_deck_returns_whole_deck].
  unfold normalizer, safe_json_load.
  fold (cleanup raw); fold cleaned.
  destruct (Json.loads cleaned) as [decoded|]; [right|left; auto].
  exists decoded; repeat split; intros d ->.
  destruct (normalize_slides (VDict d) n) as [[slides|]|e] eqn:E.
  - right. exists slides; split; [reflexivity|].
    exact (normalize_slides_some _ _ _ E).
  - left; reflexivity.
  - rewrite normalize_slides_spec in E; discriminate.
Qed.

End RoutesFacts.

(** ** The renderer *)

Lemma forallb_app_nonspace (a b : str) :
  forallb (fun c => negb (isspace c)) (a ++ b)
  = forallb (fun c => negb (isspace c)) a && forallb (fun c => negb (isspace c)) b.
Proof. apply forallb_app. Qed.

Lemma split_ws_words (s cur : str) :
  forallb (fun c => negb (isspace c)) cur = true ->
  Forall word (split_ws cur s).
Proof.
  revert cur; induction s as [|c s IH]; intros cur Hc; simpl.
  - destruct cur; constructor; [|constructor].
    split; [discriminate|assumption].
  - destruct (isspace c) eqn:E.
    + destruct cur as [|x cur]; [apply IH; reflexivity|].
      constructor; [split; [discriminate|assumption]|apply IH; reflexivity].
    + apply IH. rewrite forallb_app_nonspace, Hc; simpl. now rewrite E.
Qed.

Lemma split_words (s : str) : Forall word (split s).
Proof. apply split_ws_words; reflexivity. Qed.

Lemma word_head (w : str) c t : word w -> w = c :: t -> isspace c = false.
Proof.
  intros [_ H] ->; simpl in H.
  apply andb_prop in H as [H _]. now destruct (isspace c).
Qed.

Lemma word_last (w : str) c t : word w -> w = t ++ [c] -> isspace c = false.
Proof.
  intros [_ H] ->. rewrite forallb_app_nonspace in H.
  apply andb_prop in H as [_ H]; simpl in H. now destruct (isspace c).
Qed.

Lemma word_trimmed (w : str) : word w -> trimmed w.
Proof. intros H; split; intros c t E; [eapply word_head|eapply word_last]; eauto. Qed.



















Section RendererFacts.

Context {rt : Runtime}.

Import Units.

Lemma drawn_app (a b : list canvas_op) : drawn (a ++ b) = drawn a ++ drawn b.
Proof. apply flat_map_app. Qed.


Lemma drawn_new_page (logo : bool) : drawn (new_page logo) = [].
Proof. now destruct logo. Qed.




Lemma draw_lines_cons (logo : bool) (y : float) (ln : str) (rest : list str) :
  draw_lines logo y (ln :: rest) =
  let brk := if (y <? bottom_margin)%float then new_page logo else [] in
  let y1 := if (y <? bottom_margin)%float then (height - 3.0 * cm)%float else y in
  (brk ++ drawString (1.7 * cm)%float y1 ln
       :: fst (draw_lines logo (y1 - 14)%float rest),
   snd (draw_lines logo (y1 - 14)%float rest)).
Proof.
  cbn [draw_lines]. fold bottom_margin.
  destruct (y <? bottom_margin)%float; cbv zeta;
    destruct (draw_lines logo _ rest); reflexivity.
Qed.

Lemma draw_blocks_cons (logo : bool) (y : float) (block : str) (rest : list str) :
  draw_blocks logo y (block :: rest) =
  if negb (nonempty (strip block)) then draw_blocks logo (y - 10)%float rest
  else
    let l := draw_lines logo y (wrap_text (strip block) 95) in
    (fst l ++ fst (draw_blocks logo (snd l) rest),
     snd (draw_blocks logo (snd l) rest)).
Proof.
  cbn [draw_blocks].
  destruct (negb (nonempty (strip block))); [reflexivity|].
  destruct (draw_lines logo y _) as [ops1 y1]; cbn [fst snd].
  destruct (draw_blocks logo y1 rest); reflexivity.
Qed.

Lemma drawn_draw_lines (logo : bool) (wrapped : list str) (y : float) :
  drawn (fst (draw_lines logo y wrapped)) = wrapped.
Proof.
  revert y; induction wrapped as [|ln rest IH]; intros y; [reflexivity|].
  rewrite draw_lines_cons; cbv zeta; cbn [fst].
  rewrite drawn_app.
  destruct (y <? bottom_margin)%float;
    [rewrite drawn_new_page|]; simpl; now rewrite IH.
Qed.

Lemma wrap_text_blank (m : Z) : wrap_text [] m = [].
Proof. reflexivity. Qed.

Lemma drawn_draw_blocks (logo : bool) (blocks : list str) (y : float) :
  drawn (fst (draw_blocks logo y blocks))
  = flat_map (fun block => wrap_text (strip block) 95) blocks.
Proof.
  revert y; induction blocks as [|b rest IH]; intros y; [reflexivity|].
  rewrite draw_blocks_cons; cbn [flat_map].
  destruct (strip b) as [|c t] eqn:E.
  - cbn [nonempty negb]. rewrite IH. reflexivity.
  - cbn [nonempty negb]; cbv zeta; cbn [fst].
    now rewrite drawn_app, drawn_draw_lines, IH.
Qed.











End RendererFacts.

(** ** Cleanup of fenced text *)

Lemma startswith_app (p rest : str) : startswith (p ++ rest) p = true.
Proof.
  induction p as [|c p IH]; simpl; [now destruct rest|].
  now rewrite N.eqb_refl.
Qed.

Lemma startswith_short (s p : str) :
  (length s < length p)%nat -> startswith s p = false.
Proof.
  revert s; induction p as [|a p IH]; intros s H; simpl in H; [lia|].
  destruct s as [|b s]; simpl; [reflexivity|].
  rewrite IH by (simpl in H; lia). apply andb_false_r.
Qed.

Lemma find_from_first (i : Z) (a b : str) (c : char) :
  mem c a = false ->
  find_from i (a ++ [c] ++ b) [c] = i + len a.
Proof.
  revert i; induction a as [|x a IH]; intros i H.
  - cbn [app find_from startswith]. rewrite N.eqb_refl; cbn [andb].
    replace (startswith b []) with true by now destruct b.
    unfold len; simpl; lia.
  - simpl in H. apply orb_false_elim in H as [Hx Ha].
    cbn [app find_from startswith]. rewrite Hx; cbn [andb].
    rewrite IH by assumption. unfold len; simpl length; lia.
Qed.

Lemma rfind_from_short (i : Z) (s p : str) (last : Z) :
  (length s < length p)%nat -> rfind_from i s p last = last.
Proof.
  revert i; induction s as [|c s IH]; intros i H; cbn [rfind_from]; cbv zeta.
  - now rewrite startswith_short.
  - rewrite startswith_short by assumption.
    apply IH. simpl in H; lia.
Qed.

Lemma rfind_from_end (i : Z) (s p : str) (last : Z) :
  p <> [] -> rfind_from i (s ++ p) p last = i + len s.
Proof.
  intros Hp; revert i last; induction s as [|c s IH]; intros i last.
  - destruct p as [|a p]; [congruence|].
    cbn [app rfind_from].
    replace (startswith (a :: p) (a :: p)) with true
      by (symmetry; rewrite <- (app_nil_r (a :: p)) at 1; apply startswith_app).
    rewrite rfind_from_short by (simpl; lia).
    unfold len; simpl; lia.
  - cbn [app rfind_from]. rewrite IH. unfold len; simpl length; lia.
Qed.

Lemma rfind_end (s p : str) : p <> [] -> rfind (s ++ p) p = len s.
Proof. intros H; unfold rfind; now rewrite rfind_from_end. Qed.

Lemma slice_from_app {A} (a b : list A) :
  slice (a ++ b) (Some (len a)) None = b.
Proof.
  unfold slice, clamp, len.
  destruct (Z.ltb_spec (Z.of_nat (length a)) 0); [lia|].
  rewrite length_app, Z.min_l by lia.
  rewrite Nat2Z.id, skipn_app, skipn_all, Nat.sub_diag; simpl.
  apply firstn_all2. lia.
Qed.

Lemma slice_to_app {A} (a b : list A) :
  slice (a ++ b) None (Some (len a)) = a.
Proof.
  rewrite slice_to by apply len_nonneg.
  unfold len; rewrite Nat2Z.id.
  replace (length a) with (length a + 0)%nat by lia.
  rewrite firstn_app_2; simpl. apply app_nil_r.
Qed.

Lemma slice_whole {A} (l : list A) :
  slice l (Some 0) (Some (len l)) = l.
Proof.
  unfold slice, clamp, len.
  destruct (Z.ltb_spec (Z.of_nat (length l)) 0); [lia|].
  change (0 <? 0) with false; cbv iota.
  rewrite Z.min_id, (Z.min_l 0), Z.sub_0_r, Nat2Z.id by lia.
  simpl skipn. apply firstn_all.
Qed.

Lemma rstrip_snoc_space (s : str) (c : char) :
  isspace c = true -> rstrip (s ++ [c]) = rstrip s.
Proof.
  intros H; unfold rstrip. rewrite rev_app_distr; simpl. now rewrite H.
Qed.

Lemma strip_snoc_space (s : str) (c : char) :
  isspace c = true -> strip (s ++ [c]) = strip s.
Proof.
  intros H; unfold strip. rewrite lstrip_app.
  destruct (lstrip s) as [|x l] eqn:E.
  - simpl; now rewrite H.
  - now apply rstrip_snoc_space.
Qed.

Lemma fenced_trimmed (info d : str) : trimmed (fenced info d).
Proof.
  split; intros c t E.
  - unfold fenced, fence in E; simpl in E. now injection E as <- _.
  - unfold fenced, fence in E.
    change (lit "```") with ([96; 96]%N ++ [96%N]) in E at 2.
    rewrite !app_assoc in E.
    apply app_inj_tail in E as [_ <-]. reflexivity.
Qed.

(** Fence stripping undoes the wrapping, up to surrounding whitespace. *)
Lemma strip_markdown_fences_fenced (info d : str) :
  mem 10%N info = false ->
  strip_markdown_fences (fenced info d) = strip d.
Proof.
  intros Hinfo; unfold strip_markdown_fences.
  rewrite (strip_fix (fenced info d)) by apply fenced_trimmed.
  unfold fenced at 1. rewrite startswith_app.
  assert (Hfind : find (fenced info d) nl = len (fence ++ info)).
  { unfold find, fenced, nl. rewrite (app_assoc fence info).
    transitivity (0 + len (fence ++ info)); [|lia].
    apply (find_from_first 0 (fence ++ info) (d ++ [10%N] ++ fence) 10%N).
    unfold mem in *. rewrite existsb_app. cbn [existsb fence lit].
    apply orb_false_intro; [reflexivity|exact Hinfo]. }
  rewrite Hfind.
  assert (Hne : (len (fence ++ info) =? -1) = false).
  { apply Z.eqb_neq. pose proof (len_nonneg (fence ++ info)); lia. }
  rewrite Hne; cbn [negb].
  assert (Hcut : slice (fenced info d) (Some (len (fence ++ info) + 1)) None
                 = d ++ nl ++ fence).
  { unfold fenced.
    replace (fence ++ info ++ nl ++ d ++ nl ++ fence)
      with (((fence ++ info) ++ nl) ++ d ++ nl ++ fence)
      by now rewrite <- !app_assoc.
    replace (len (fence ++ info) + 1) with (len ((fence ++ info) ++ nl))
      by (unfold len; rewrite (length_app (fence ++ info) nl); simpl; lia).
    apply slice_from_app. }
  rewrite Hcut.
  replace (d ++ nl ++ fence) with ((d ++ nl) ++ fence) by now rewrite <- app_assoc.
  rewrite rfind_end by discriminate.
  assert (Hne2 : (len (d ++ nl) =? -1) = false).
  { apply Z.eqb_neq. pose proof (len_nonneg (d ++ nl)); lia. }
  rewrite Hne2; cbn [negb].
  rewrite slice_to_app.
  apply strip_snoc_space. reflexivity.
Qed.

(** Text that, trimmed, runs from an opening to a closing brace is left as
    it is by brace slicing. *)
Lemma force_json_only_braced (t m : str) :
  t = 123%N :: m ++ [125%N] -> force_json_only t = t.
Proof.
  intros Ht.
  assert (Htrim : trimmed t).
  { subst t; split; intros c u E.
    - now injection E as <- _.
    - rewrite app_comm_cons in E. apply app_inj_tail in E as [_ <-]. reflexivity. }
  unfold force_json_only. rewrite strip_fix by assumption.
  assert (Hstart : find t (lit "{") = 0).
  { subst t. unfold find. cbn [find_from startswith lit map list_ascii_of_string].
    rewrite N.eqb_refl. now destruct (m ++ [125%N]). }
  assert (Hend : rfind t (lit "}") = len (123%N :: m)).
  { subst t. rewrite app_comm_cons. apply rfind_end. discriminate. }
  rewrite Hstart, Hend.
  assert (Hlen : len (123%N :: m) + 1 = len t).
  { subst t. unfold len. rewrite app_comm_cons, length_app.
    cbn [length]; lia. }
  pose proof (len_nonneg m) as Hm.
  assert (H1 : (len (123%N :: m) =? -1) = false).
  { apply Z.eqb_neq. unfold len in *; cbn [length]; lia. }
  assert (H2 : (len (123%N :: m) <=? 0) = false).
  { apply Z.leb_gt. unfold len in *; cbn [length]; lia. }
  rewrite H1, H2; cbn [orb Z.eqb].
  rewrite Hlen, slice_whole. now apply strip_fix.
Qed.

(** ** The JSON scanner *)

Module JsonFacts.

Import Json.

(** Case analysis on every scrutinee in [H], innermost first. *)
Ltac break H :=
  repeat match type of H with
    | context [match ?e with _ => _ end] =>
        lazymatch e with
        | context [match _ with _ => _ end] => fail
        | _ => let E := fresh "E" in destruct e eqn:E
        end
    end;
  try discriminate.

Ltac inj H := injection H; clear H; intros; subst.

Lemma suffix_refl (s : str) : suffix s s.
Proof. now exists []. Qed.

Lemma suffix_trans (a b c : str) : suffix a b -> suffix b c -> suffix a c.
Proof.
  intros [x ->] [y ->]. exists (y ++ x). now rewrite app_assoc.
Qed.

Lemma suffix_cons (r s : str) (c : N) : suffix r s -> suffix r (c :: s).
Proof. intros [a ->]. now exists (c :: a). Qed.

Lemma suffix_length (r s : str) : suffix r s -> (length r <= length s)%nat.
Proof. intros [a ->]. rewrite length_app; lia. Qed.

(** A remainder at least as long as [w] keeps [w] whole. *)
Lemma suffix_app_inv (r x w : str) :
  suffix r (x ++ w) -> (length w <= length r)%nat ->
  exists r0, r = r0 ++ w /\ suffix r0 x.
Proof.
  intros [a E] Hlen.
  apply app_eq_app in E as [l [[-> ->]|[-> ->]]].
  - exists l; split; [reflexivity|now exists a].
  - rewrite length_app in Hlen.
    destruct l; [|simpl in Hlen; lia].
    exists []; split; [reflexivity|exists x; now rewrite app_nil_r].
Qed.

Lemma peel (x w rest : str) (c : N) :
  x ++ w = c :: rest -> (length w <= length rest)%nat ->
  exists x', x = c :: x' /\ x' ++ w = rest.
Proof.
  intros E Hlen; destruct x as [|c' x].
  - simpl in E; subst w; simpl in Hlen; lia.
  - simpl in E; inj E. eauto.
Qed.

Lemma skip_ws_suffix (s : str) : suffix (skip_ws s) s.
Proof.
  induction s as [|c s IH]; simpl; [apply suffix_refl|].
  destruct (is_ws c); [now apply suffix_cons|apply suffix_refl].
Qed.

Lemma skip_ws_peel (a w r : str) (c : N) :
  skip_ws (a ++ w) = c :: r -> (length w <= length r)%nat ->
  exists r0, r = r0 ++ w /\ skip_ws a = c :: r0.
Proof.
  induction a as [|x a IH]; intros E Hlen.
  - simpl in E. pose proof (suffix_length _ _ (skip_ws_suffix w)) as Hs.
    rewrite E in Hs; simpl in Hs; lia.
  - simpl in E |- *. destruct (is_ws x); [now apply IH|].
    inj E. now exists a.
Qed.

Lemma skip_ws_fix (c : N) (s : str) : is_ws c = false -> skip_ws (c :: s) = c :: s.
Proof. intros H; simpl; now rewrite H. Qed.

(** *** Strings *)

Lemma scanstring_from_suffix (n : nat) :
  forall (s : str) (p : option N) (k r : str),
    (length s <= n)%nat ->
    scanstring_from p s = Some (k, r) ->
    suffix r s /\ (length r < length s)%nat.
Proof.
  induction n as [|n IH]; intros s p k r Hn H.
  - destruct s; [discriminate|simpl in Hn; lia].
  - destruct s as [|c t]; [discriminate|].
    cbn [scanstring_from] in H. unfold flush, cons_fst in H.
    break H; try inj H;
      repeat match goal with
        | E : scanstring_from _ ?t' = Some _ |- _ =>
            apply IH in E; [destruct E as [[? ->] ?]|simpl in *; lia]
        end;
      (split;
       [ repeat apply suffix_cons;
         first [apply suffix_refl | eexists; reflexivity]
       | simpl in *; rewrite ?length_app in *; simpl in *; lia ]).
Qed.

Lemma scanstring_from_length (s : str) (p : option N) (k r : str) :
  scanstring_from p s = Some (k, r) -> (length r < length s)%nat.
Proof. intros H; now apply scanstring_from_suffix with (n := length s) in H. Qed.

(** Peel [w] off the end repeatedly while a hypothesis exposes the head of
    [x ++ w]. *)
Ltac peel_all :=
  repeat match goal with
    | E : ?x ++ ?w = _ :: _ |- _ =>
        apply peel in E;
        [ let x' := fresh "x" in destruct E as (x' & -> & E)
        | simpl in *; rewrite ?length_app in *; simpl in *; lia ]
    end;
  repeat match goal with
    | E : ?x ++ ?w = ?t |- _ => is_var t; subst t
    end.

Ltac rewrite_tests :=
  repeat match goal with
    | E : ?e = _ |- context [?e] => rewrite E
    end.

Lemma scanstring_from_peel (n : nat) :
  forall (a w : str) (p : option N) (k r : str),
    (length a <= n)%nat ->
    scanstring_from p (a ++ w) = Some (k, r) ->
    (length w <= length r)%nat ->
    exists r0, r = r0 ++ w /\ scanstring_from p a = Some (k, r0).
Proof.
  induction n as [|n IH]; intros a w p k r Hn H Hlen;
    pose proof (scanstring_from_length _ _ _ _ H) as Hl;
    rewrite length_app in Hl;
    (destruct a as [|c a]; [simpl in Hl; lia|]); [simpl in Hn; lia|].
  simpl app in H. cbn [scanstring_from] in H. unfold flush, cons_fst in H.
  break H; try inj H;
    repeat match goal with
      | E : scanstring_from _ _ = Some _ |- _ =>
          pose proof (scanstring_from_length _ _ _ _ E); revert E
      end; intros; peel_all.
  all: try match goal with
      | E : scanstring_from _ (_ ++ _) = Some _ |- _ =>
          apply IH in E;
          [ destruct E as (r0 & -> & E)
          | simpl in *; lia
          | simpl in *; rewrite ?length_app in *; simpl in *; lia ]
      end.
  all: eexists; (split; [reflexivity|]).
  all: cbn [scanstring_from]; rewrite_tests; unfold flush, cons_fst;
    rewrite_tests; reflexivity.
Qed.

(** *** Numbers and constants *)

Ltac lens :=
  simpl in *;
  repeat match goal with
    | E : _ :: _ = _ :: _ |- _ => injection E; clear E; intros
    end;
  subst; repeat (progress (simpl in *; rewrite ?length_app in *)); lia.

Lemma span_digits_eq (s ds r : str) : span_digits s = (ds, r) -> s = ds ++ r.
Proof.
  revert ds r; induction s as [|c s IH]; intros ds r H; simpl in H.
  - now inj H.
  - destruct (is_digit c); [|now inj H].
    destruct (span_digits s) as [ds' r']. inj H.
    simpl; f_equal; now apply IH.
Qed.

Lemma span_digits_peel (a w ds r : str) :
  span_digits (a ++ w) = (ds, r) -> (length w <= length r)%nat ->
  exists r0, r = r0 ++ w /\ span_digits a = (ds, r0).
Proof.
  revert ds r; induction a as [|c a IH]; intros ds r H Hlen.
  - simpl in H. pose proof (span_digits_eq _ _ _ H) as E.
    assert (ds = []) as -> by (destruct ds; [reflexivity|subst w; lens]).
    simpl in E; subst r. now exists [].
  - simpl in H |- *. destruct (is_digit c).
    + destruct (span_digits (a ++ w)) as [ds' r'] eqn:E. inj H.
      destruct (IH _ _ eq_refl Hlen) as (r0 & -> & ->). now exists r0.
    + inj H. now exists (c :: a).
Qed.

(** Nothing is matched on a prefix of a text on which nothing is matched. *)
Lemma span_digits_none (a w r : str) :
  span_digits (a ++ w) = ([], r) -> span_digits a = ([], a).
Proof.
  destruct a as [|c a]; [reflexivity|]. simpl.
  destruct (is_digit c); [|reflexivity].
  destruct (span_digits (a ++ w)); discriminate.
Qed.

Lemma int_part_eq (s ip r : str) :
  int_part s = Some (ip, r) -> s = ip ++ r /\ ip <> [].
Proof.
  unfold int_part; intros H; break H; inj H.
  - apply span_digits_eq in E1; subst. split; [reflexivity|discriminate].
  - split; [reflexivity|discriminate].
Qed.

Lemma int_part_peel (a w ip r : str) :
  int_part (a ++ w) = Some (ip, r) -> (length w <= length r)%nat ->
  exists r0, r = r0 ++ w /\ int_part a = Some (ip, r0).
Proof.
  intros H Hlen. pose proof (int_part_eq _ _ _ H) as [E Hne].
  destruct a as [|c a];
    [simpl in E; destruct ip; [congruence|subst w; lens]|].
  simpl app in H. unfold int_part in H |- *.
  destruct ((49 <=? c) && (c <=? 57))%N.
  - destruct (span_digits (a ++ w)) as [ds r'] eqn:Es. inj H.
    destruct (span_digits_peel _ _ _ _ Es Hlen) as (r0 & -> & ->).
    now exists r0.
  - destruct (c =? 48)%N; [|discriminate]. inj H. now exists a.
Qed.

Lemma frac_part_eq (s fp r : str) : frac_part s = (fp, r) -> s = fp ++ r.
Proof.
  unfold frac_part; intros H; break H; inj H; try reflexivity.
  apply span_digits_eq in E2; now subst.
Qed.

Lemma frac_part_peel (a w fp r : str) :
  frac_part (a ++ w) = (fp, r) -> (length w <= length r)%nat ->
  exists r0, r = r0 ++ w /\ frac_part a = (fp, r0).
Proof.
  intros H Hlen. pose proof (frac_part_eq _ _ _ H) as E.
  destruct a as [|p [|d a]].
  - simpl in E.
    assert (fp = []) as -> by (destruct fp; [reflexivity|subst w; lens]).
    simpl in E; subst r. now exists [].
  - simpl app in H. unfold frac_part in H. break H; inj H;
      try (now exists [p]).
    apply span_digits_eq in E2. lens.
  - simpl app in H. unfold frac_part in H |- *.
    destruct ((p =? 46)%N && is_digit d).
    + destruct (span_digits (a ++ w)) as [ds r'] eqn:Es. inj H.
      destruct (span_digits_peel _ _ _ _ Es Hlen) as (r0 & -> & ->).
      now exists r0.
    + inj H. now exists (p :: d :: a).
Qed.

Lemma exp_part_eq (s ep r : str) : exp_part s = (ep, r) -> s = ep ++ r.
Proof.
  unfold exp_part; intros H; break H; inj H; try reflexivity;
    match goal with
    | E : span_digits _ = _ |- _ => apply span_digits_eq in E
    end; simpl in *; congruence.
Qed.

Lemma exp_part_none (a w r : str) :
  exp_part (a ++ w) = ([], r) -> exp_part a = ([], a).
Proof.
  destruct a as [|e [|c a]]; try reflexivity.
  - unfold exp_part. destruct ((e =? 101) || (e =? 69))%N; reflexivity.
  - simpl app. unfold exp_part.
    destruct ((e =? 101) || (e =? 69))%N; [|reflexivity].
    destruct ((c =? 43) || (c =? 45))%N.
    + destruct (span_digits (a ++ w)) as [[|d ds] r'] eqn:E; [|discriminate].
      intros _. now rewrite (span_digits_none _ _ _ E).
    + change (c :: a ++ w) with ((c :: a) ++ w).
      destruct (span_digits ((c :: a) ++ w)) as [[|d ds] r'] eqn:E;
        [|discriminate].
      intros _. now rewrite (span_digits_none _ _ _ E).
Qed.

Lemma exp_part_peel (a w ep r : str) :
  exp_part (a ++ w) = (ep, r) -> (length w <= length r)%nat ->
  exists r0, r = r0 ++ w /\ exp_part a = (ep, r0).
Proof.
  intros H Hlen. pose proof (exp_part_eq _ _ _ H) as E.
  destruct ep as [|x ep].
  { simpl in E; subst r. exists a; split; [reflexivity|].
    eapply exp_part_none; eassumption. }
  destruct a as [|e [|c a]]; [lens| |].
  - simpl app in H. unfold exp_part in H. break H; inj H;
      match goal with
      | E : span_digits _ = _ |- _ => apply span_digits_eq in E
      end; lens.
  - simpl app in H. unfold exp_part in H |- *.
    destruct ((e =? 101) || (e =? 69))%N; [|discriminate].
    destruct ((c =? 43) || (c =? 45))%N.
    + destruct (span_digits (a ++ w)) as [[|d ds] r'] eqn:Es; [discriminate|].
      inj H.
      destruct (span_digits_peel _ _ _ _ Es Hlen) as (r0 & -> & ->).
      now exists r0.
    + change (c :: a ++ w) with ((c :: a) ++ w) in H.
      destruct (span_digits ((c :: a) ++ w)) as [[|d ds] r'] eqn:Es;
        [discriminate|].
      inj H.
      destruct (span_digits_peel _ _ _ _ Es Hlen) as (r0 & -> & ->).
      now exists r0.
Qed.

Lemma match_number_suffix (s : str) (v : value) (r : str) :
  match_number s = Some (v, r) ->
  suffix r s /\ (length r < length s)%nat.
Proof.
  unfold match_number; intros H.
  destruct (match s with
            | c :: t => if (c =? 45)%N then ([c], t) else ([], s)
            | [] => ([], s)
            end) as [sign s1] eqn:Esign.
  assert (Hs1 : suffix s1 s).
  { destruct s as [|c t]; [inj Esign; apply suffix_refl|].
    destruct (c =? 45)%N; inj Esign;
      [apply suffix_cons|]; apply suffix_refl. }
  destruct (int_part s1) as [[ip r1]|] eqn:Ei; [|discriminate].
  destruct (frac_part r1) as [fp r2] eqn:Ef.
  destruct (exp_part r2) as [ep r3] eqn:Ee.
  apply int_part_eq in Ei as [-> Hip].
  apply frac_part_eq in Ef as ->. apply exp_part_eq in Ee as ->.
  assert (r = r3) as -> by (destruct fp, ep; now inj H).
  destruct Hs1 as [a ->]. split.
  - exists (a ++ ip ++ fp ++ ep). now rewrite <- !app_assoc.
  - destruct ip; [congruence|]. lens.
Qed.

Lemma match_number_peel (a w : str) (v : value) (r : str) :
  match_number (a ++ w) = Some (v, r) -> (length w <= length r)%nat ->
  exists r0, r = r0 ++ w /\ match_number a = Some (v, r0).
Proof.
  intros H Hlen.
  pose proof (match_number_suffix _ _ _ H) as [_ Hl].
  destruct a as [|c a]; [lens|]. clear Hl.
  simpl app in H. unfold match_number in H |- *.
  assert (Hchain : forall sign s1 x,
    s1 = x ++ w ->
    match int_part s1 with
    | Some (ip, r1) =>
        let (fp, r2) := frac_part r1 in
        let (ep, r3) := exp_part r2 in
        match fp, ep with
        | [], [] =>
            Some (VInt match sign with
                       | [] => digits_value 0 ip
                       | _ :: _ => - digits_value 0 ip
                       end, r3)
        | _, _ => Some (VFloat (sign ++ ip ++ fp ++ ep), r3)
        end
    | None => None
    end = Some (v, r) ->
    exists r0, r = r0 ++ w /\
      match int_part x with
      | Some (ip, r1) =>
          let (fp, r2) := frac_part r1 in
          let (ep, r3) := exp_part r2 in
          match fp, ep with
          | [], [] =>
              Some (VInt match sign with
                         | [] => digits_value 0 ip
                         | _ :: _ => - digits_value 0 ip
                         end, r3)
          | _, _ => Some (VFloat (sign ++ ip ++ fp ++ ep), r3)
          end
      | None => None
      end = Some (v, r0)).
  { intros sign s1 x -> Hx.
    destruct (int_part (x ++ w)) as [[ip r1]|] eqn:Ei; [|discriminate].
    destruct (frac_part r1) as [fp r2] eqn:Ef.
    destruct (exp_part r2) as [ep r3] eqn:Ee.
    assert (r = r3) as -> by (destruct fp, ep; now inj Hx).
    pose proof (frac_part_eq _ _ _ Ef) as E1.
    pose proof (exp_part_eq _ _ _ Ee) as E2.
    destruct (int_part_peel _ _ _ _ Ei) as (r10 & -> & ->); [lens|].
    destruct (frac_part_peel _ _ _ _ Ef) as (r20 & -> & ->); [lens|].
    destruct (exp_part_peel _ _ _ _ Ee Hlen) as (r30 & -> & ->).
    exists r30; split; [reflexivity|].
    destruct fp, ep; now inj Hx. }
  destruct (c =? 45)%N.
  - apply (Hchain [c] (a ++ w) a eq_refl H).
  - apply (Hchain [] (c :: a ++ w) (c :: a) eq_refl H).
Qed.

Lemma startswith_prefix (x w p : str) :
  startswith (x ++ w) p = true -> (length p <= length x)%nat ->
  startswith x p = true.
Proof.
  revert x; induction p as [|c p IH]; intros x H Hlen.
  - now destruct x.
  - destruct x as [|b x]; [simpl in Hlen; lia|].
    simpl in H |- *. apply andb_prop in H as [-> H]. simpl.
    apply IH; [assumption|simpl in Hlen; lia].
Qed.

Lemma startswith_extend (x w p : str) :
  startswith x p = true -> startswith (x ++ w) p = true.
Proof.
  revert x; induction p as [|c p IH]; intros x H.
  - now destruct (x ++ w).
  - destruct x as [|b x]; [discriminate|].
    simpl in H |- *. apply andb_prop in H as [-> H]. simpl. now apply IH.
Qed.

Lemma constant_startswith (word : str) (v v' : value) (s r : str) :
  constant word v s = Some (v', r) -> startswith s word = true.
Proof. unfold constant; now destruct (startswith s word). Qed.

Lemma constant_suffix (word : str) (v v' : value) (s r : str) :
  word <> [] ->
  constant word v s = Some (v', r) ->
  suffix r s /\ (length r < length s)%nat.
Proof.
  unfold constant; intros Hw H.
  destruct (startswith s word) eqn:E; [|discriminate]. inj H.
  assert (Hlen : (length word <= length s)%nat).
  { destruct (Nat.le_gt_cases (length word) (length s)); [assumption|].
    rewrite startswith_short in E by assumption. discriminate. }
  split.
  - exists (firstn (length word) s). symmetry; apply firstn_skipn.
  - rewrite length_skipn. destruct word; [congruence|simpl in *; lia].
Qed.

Lemma constant_peel (word : str) (v v' : value) (a w r : str) :
  word <> [] ->
  constant word v (a ++ w) = Some (v', r) -> (length w <= length r)%nat ->
  exists r0, r = r0 ++ w /\ constant word v a = Some (v', r0).
Proof.
  unfold constant; intros Hw H Hlen.
  destruct (startswith (a ++ w) word) eqn:E; [|discriminate]. inj H.
  rewrite length_skipn, length_app in Hlen.
  assert (Hle : (length word <= length a)%nat).
  { destruct (Nat.le_gt_cases (length word) (length (a ++ w))) as [Hin|Hout].
    - rewrite length_app in Hin. lia.
    - rewrite startswith_short in E by assumption. discriminate. }
  rewrite (startswith_prefix _ _ _ E Hle).
  exists (skipn (length word) a); split; [|reflexivity].
  rewrite skipn_app.
  replace (length word - length a)%nat with O by lia. reflexivity.
Qed.

(** *** Values *)

Lemma shorter_cons (r s : str) (c : N) : suffix r s -> shorter r (c :: s).
Proof.
  intros H; split; [now apply suffix_cons|].
  apply suffix_length in H; simpl; lia.
Qed.

Lemma shorter_suffix (a b c : str) : shorter a b -> suffix b c -> shorter a c.
Proof.
  intros [H1 H2] H3; split; [eapply suffix_trans; eassumption|].
  apply suffix_length in H3; lia.
Qed.

Lemma suffix_shorter (a b c : str) : suffix a b -> shorter b c -> shorter a c.
Proof.
  intros H1 [H2 H3]; split; [eapply suffix_trans; eassumption|].
  apply suffix_length in H1; lia.
Qed.

Lemma skip_ws_cons (t t' : str) (c : N) :
  skip_ws t = c :: t' -> shorter t' t.
Proof.
  intros E. eapply shorter_suffix; [|apply (skip_ws_suffix t)].
  rewrite E. apply shorter_cons, suffix_refl.
Qed.

Lemma scanstring_shorter (s k r : str) :
  scanstring s = Some (k, r) -> shorter r s.
Proof. intros H; eapply scanstring_from_suffix; [apply le_n|exact H]. Qed.

(** Collect what each successful step leaves, then chain. *)
Ltac step_facts IHs IHm IHe :=
  repeat match goal with
    | E : scanstring _ = Some _ |- _ => apply scanstring_shorter in E
    | E : skip_ws ?t = _ :: _ |- _ =>
        let S := fresh "S" in
        pose proof (skip_ws_suffix t) as S; rewrite E in S; clear E
    | E : scan_once _ _ = Some _ |- _ => apply IHs in E
    | E : parse_members _ _ _ = Some _ |- _ => apply IHm in E
    | E : parse_elements _ _ _ = Some _ |- _ => apply IHe in E
    | E : constant _ _ _ = Some _ |- _ =>
        apply constant_suffix in E; [|discriminate]
    | E : match_number _ = Some _ |- _ => apply match_number_suffix in E
    end;
  repeat match goal with
    | H : shorter _ _ |- _ => destruct H
    | H : _ /\ _ |- _ => destruct H
    end.

Lemma suffix_tail (a s : str) (c : N) : suffix (c :: a) s -> suffix a s.
Proof. apply suffix_trans, suffix_cons, suffix_refl. Qed.

(** Walk from the remainder up to the input along the facts at hand. *)
Ltac suff :=
  lazymatch goal with
  | |- suffix ?a ?a => apply suffix_refl
  | |- suffix ?a (_ :: ?a) => apply suffix_cons, suffix_refl
  | |- suffix (skip_ws ?t) ?b =>
      apply (suffix_trans _ t b); [apply skip_ws_suffix|suff]
  | H : suffix ?a ?y |- suffix ?a ?b =>
      apply (suffix_trans a y b); [exact H|suff]
  | H : suffix (_ :: ?a) ?y |- suffix ?a ?b =>
      apply (suffix_trans a y b); [exact (suffix_tail _ _ _ H)|suff]
  end.

Ltac chain :=
  split;
  [ suff
  | repeat match goal with
      | H : suffix _ _ |- _ => apply suffix_length in H
      end;
    repeat match goal with
      | |- context [skip_ws ?t] =>
          lazymatch goal with
          | _ : (length (skip_ws t) <= length t)%nat |- _ => fail
          | _ => pose proof (suffix_length _ _ (skip_ws_suffix t))
          end
      | _ : context [skip_ws ?t] |- _ =>
          lazymatch goal with
          | _ : (length (skip_ws t) <= length t)%nat |- _ => fail
          | _ => pose proof (suffix_length _ _ (skip_ws_suffix t))
          end
      end;
    simpl in *; lia ].

Lemma scan_shorter (f : nat) :
  (forall s v r, scan_once f s = Some (v, r) -> shorter r s)
  /\ (forall acc s d r, parse_members f acc s = Some (d, r) -> shorter r s)
  /\ (forall acc s l r, parse_elements f acc s = Some (l, r) -> shorter r s).
Proof.
  induction f as [|f (IHs & IHm & IHe)];
    [split; [|split]; discriminate|].
  split; [|split].
  - intros s v r H. cbn [scan_once] in H.
    destruct s as [|c t]; [discriminate|].
    break H; try inj H; step_facts IHs IHm IHe; chain.
  - intros acc s d r H. cbn [parse_members] in H.
    break H; try inj H; step_facts IHs IHm IHe; chain.
  - intros acc s l r H. cbn [parse_elements] in H.
    break H; try inj H; step_facts IHs IHm IHe; chain.
Qed.

Lemma skip_ws_app (x w : str) :
  (length w < length (skip_ws (x ++ w)))%nat ->
  skip_ws (x ++ w) = skip_ws x ++ w.
Proof.
  induction x as [|c x IH]; intros H.
  - pose proof (suffix_length _ _ (skip_ws_suffix w)). simpl in H; lia.
  - simpl in H |- *. destruct (is_ws c); [now apply IH|reflexivity].
Qed.

(** The length of what each successful step leaves. *)
Ltac note H := let T := type of H in
  lazymatch goal with
  | _ : T |- _ => fail
  | _ => pose proof H
  end.

Ltac len_facts :=
  repeat match goal with
    | E : scanstring _ = Some _ |- _ =>
        progress note (proj2 (scanstring_shorter _ _ _ E))
    | E : scanstring_from _ _ = Some _ |- _ =>
        progress note (scanstring_from_length _ _ _ _ E)
    | E : skip_ws ?t = _ :: _ |- _ =>
        progress note (proj2 (skip_ws_cons _ _ _ E))
    | E : scan_once ?f _ = Some _ |- _ =>
        progress note (proj2 (proj1 (scan_shorter f) _ _ _ E))
    | E : parse_members ?f _ _ = Some _ |- _ =>
        progress note (proj2 (proj1 (proj2 (scan_shorter f)) _ _ _ _ E))
    | E : parse_elements ?f _ _ = Some _ |- _ =>
        progress note (proj2 (proj2 (proj2 (scan_shorter f)) _ _ _ _ E))
    | E : constant _ _ _ = Some _ |- _ =>
        progress note (proj2 (constant_suffix _ _ _ _ _ ltac:(discriminate) E))
    | E : match_number _ = Some _ |- _ =>
        progress note (proj2 (match_number_suffix _ _ _ E))
    | _ : context [skip_ws ?t] |- _ =>
        progress note (suffix_length _ _ (skip_ws_suffix t))
    end.

Ltac lens2 :=
  len_facts;
  repeat (progress (cbn [length app] in *; rewrite ?length_app in *));
  lia.

(** Replace each step on [_ ++ w] by the same step without [w], first to
    last. *)
Ltac peel_steps IHs IHm IHe f'' :=
  repeat match goal with
    | E : scanstring (?x ++ ?w) = Some (_, ?r) |- _ =>
        let r0 := fresh "r" in
        apply (scanstring_from_peel (length x)) in E;
        [destruct E as (r0 & -> & E)|apply le_n|lens2]
    | E : skip_ws (?x ++ ?w) = _ :: ?r |- _ =>
        let r0 := fresh "r" in
        apply skip_ws_peel in E; [destruct E as (r0 & -> & E)|lens2]
    | E : constant _ _ (?x ++ ?w) = Some (_, ?r) |- _ =>
        let r0 := fresh "r" in
        apply constant_peel in E;
        [destruct E as (r0 & -> & E)|discriminate|lens2]
    | E : match_number (?x ++ ?w) = Some (_, ?r) |- _ =>
        let r0 := fresh "r" in
        apply match_number_peel in E; [destruct E as (r0 & -> & E)|lens2]
    | E : context [skip_ws (?x ++ ?w)] |- _ =>
        rewrite (skip_ws_app x w) in E by lens2
    | E : context [?c :: ?x ++ ?w] |- _ =>
        change (c :: x ++ w) with ((c :: x) ++ w) in E
    | E : scan_once _ (?x ++ ?w) = Some (_, ?r) |- _ =>
        let r0 := fresh "r" in
        apply IHs with (f' := f'') in E;
        [destruct E as (r0 & -> & E)|lens2|lens2]
    | E : parse_members _ _ (?x ++ ?w) = Some (_, ?r) |- _ =>
        let r0 := fresh "r" in
        apply IHm with (f' := f'') in E;
        [destruct E as (r0 & -> & E)|lens2|lens2]
    | E : parse_elements _ _ (?x ++ ?w) = Some (_, ?r) |- _ =>
        let r0 := fresh "r" in
        apply IHe with (f' := f'') in E;
        [destruct E as (r0 & -> & E)|lens2|lens2]
    end.

(** A successful scan neither looks into nor depends on what follows the
    remainder, and any fuel that covers the characters it consumes will
    do. *)
Lemma scan_peel (f : nat) :
  (forall a w v r f',
      scan_once f (a ++ w) = Some (v, r) ->
      (length w <= length r)%nat ->
      (length a + length w <= f' + length r)%nat ->
      exists r0, r = r0 ++ w /\ scan_once f' a = Some (v, r0))
  /\ (forall acc a w d r f',
        parse_members f acc (a ++ w) = Some (d, r) ->
        (length w <= length r)%nat ->
        (length a + length w <= f' + length r)%nat ->
        exists r0, r = r0 ++ w /\ parse_members f' acc a = Some (d, r0))
  /\ (forall acc a w l r f',
        parse_elements f acc (a ++ w) = Some (l, r) ->
        (length w <= length r)%nat ->
        (length a + length w <= f' + length r)%nat ->
        exists r0, r = r0 ++ w /\ parse_elements f' acc a = Some (l, r0)).
Proof.
  induction f as [|f (IHs & IHm & IHe)];
    [split; [|split]; discriminate|].
  split; [|split].
  - intros a w v r f' H Hlen Hf.
    pose proof (proj2 (proj1 (scan_shorter _) _ _ _ H)) as Hl.
    destruct a as [|c a]; [lens2|].
    destruct f' as [|f'']; [lens2|]. clear Hl.
    simpl app in H. cbn [scan_once] in H.
    break H; try inj H.
    all: peel_steps IHs IHm IHe f''.
    all: eexists; (split; [reflexivity|]).
    all: cbn [scan_once]; unfold scanstring in *; rewrite_tests;
      try reflexivity.
    + match goal with
      | E : constant _ _ _ = Some _ |- _ =>
          now rewrite (constant_startswith _ _ _ _ _ E)
      end.
    + destruct (startswith (c :: a) (lit "-Infinity")) eqn:Es; [|reflexivity].
      apply (startswith_extend _ w) in Es. congruence.
  - intros acc a w d r f' H Hlen Hf.
    pose proof (proj2 (proj1 (proj2 (scan_shorter _)) _ _ _ _ H)) as Hl.
    destruct a as [|c a]; [lens2|].
    destruct f' as [|f'']; [lens2|]. clear Hl.
    simpl app in H. cbn [parse_members] in H.
    break H; try inj H.
    all: peel_steps IHs IHm IHe f''.
    all: eexists; (split; [reflexivity|]).
    all: cbn [parse_members]; unfold scanstring in *; rewrite_tests;
      try reflexivity.
  - intros acc a w l r f' H Hlen Hf.
    pose proof (proj2 (proj2 (proj2 (scan_shorter _)) _ _ _ _ H)) as Hl.
    destruct f' as [|f'']; [lens2|]. clear Hl.
    cbn [parse_elements] in H.
    break H; try inj H.
    all: peel_steps IHs IHm IHe f''.
    all: eexists; (split; [reflexivity|]).
    all: cbn [parse_elements]; rewrite_tests; try reflexivity.
Qed.

Lemma scan_once_peel (f f' : nat) (a w : str) (v : value) (r : str) :
  scan_once f (a ++ w) = Some (v, r) ->
  (length w <= length r)%nat ->
  (length a + length w <= f' + length r)%nat ->
  exists r0, r = r0 ++ w /\ scan_once f' a = Some (v, r0).
Proof. apply (proj1 (scan_peel f)). Qed.

(** *** Objects *)

Lemma members_end (f : nat) :
  forall acc s d r,
    parse_members f acc s = Some (d, r) -> suffix (125%N :: r) s.
Proof.
  induction f as [|f IH]; [discriminate|].
  pose proof (scan_shorter f) as (IHs & IHm & IHe).
  intros acc s d r H. cbn [parse_members] in H.
  break H; try inj H.
  - match goal with E : (_ =? 125)%N = true |- _ => apply N.eqb_eq in E end.
    subst. step_facts IHs IHm IHe. suff.
  - match goal with
    | E : parse_members _ _ _ = Some _ |- _ => apply IH in E
    end.
    step_facts IHs IHm IHe. suff.
Qed.

Lemma match_number_not_dict (s : str) (d : dict) (r : str) :
  match_number s <> Some (VDict d, r).
Proof. unfold match_number; intros H; break H. Qed.

Lemma constant_value (word : str) (v v' : value) (s r : str) :
  constant word v s = Some (v', r) -> v' = v.
Proof. unfold constant; intros H; break H; now inj H. Qed.

(** An object is read from an opening brace to a closing brace. *)
Lemma scan_once_object (f : nat) (s : str) (d : dict) (r : str) :
  scan_once f s = Some (VDict d, r) ->
  exists m, s = 123%N :: m ++ 125%N :: r.
Proof.
  destruct f as [|f]; [discriminate|].
  cbn [scan_once]; intros H.
  destruct s as [|c t]; [discriminate|].
  destruct (c =? 34)%N; [break H|].
  destruct (c =? 123)%N eqn:Ec.
  - apply N.eqb_eq in Ec; subst c.
    assert (Hs : suffix (125%N :: r) t).
    { pose proof (scan_shorter f) as (IHs & IHm & IHe).
      break H; inj H.
      - match goal with E : (_ =? 125)%N = true |- _ => apply N.eqb_eq in E end.
        subst. step_facts IHs IHm IHe. suff.
      - match goal with
        | E : parse_members _ _ _ = Some _ |- _ => apply members_end in E
        end.
        step_facts IHs IHm IHe. suff. }
    destruct Hs as [m ->]. now exists m.
  - exfalso. break H; try inj H;
      repeat match goal with
        | E : constant _ _ _ = Some _ |- _ => apply constant_value in E
        | E : match_number _ = Some _ |- _ => apply match_number_not_dict in E
        end;
      try discriminate; try contradiction.
Qed.

(** *** Whitespace around a document *)

Lemma is_ws_isspace (c : N) : is_ws c = true -> isspace c = true.
Proof.
  unfold is_ws; intros H.
  repeat (apply orb_prop in H as [H|H]); apply N.eqb_eq in H; now subst.
Qed.

Lemma lstrip_skip_ws (d : str) (c : N) (t : str) :
  skip_ws d = c :: t -> isspace c = false -> lstrip d = c :: t.
Proof.
  induction d as [|x d IH]; [discriminate|].
  simpl. destruct (is_ws x) eqn:E.
  - rewrite (is_ws_isspace _ E). exact IH.
  - intros H Hc; inj H. now rewrite Hc.
Qed.

Lemma skip_ws_nil_spaces (r : str) :
  skip_ws r = [] -> Forall (fun c => isspace c = true) r.
Proof.
  induction r as [|c r IH]; [constructor|].
  simpl. destruct (is_ws c) eqn:E; [|discriminate].
  intros H; constructor; [now apply is_ws_isspace|auto].
Qed.

Lemma lstrip_spaces (l x : str) :
  Forall (fun c => isspace c = true) l -> lstrip (l ++ x) = lstrip x.
Proof.
  induction 1 as [|c l Hc _ IH]; [reflexivity|].
  simpl. now rewrite Hc.
Qed.

Lemma rstrip_spaces (a r : str) :
  Forall (fun c => isspace c = true) r -> rstrip (a ++ r) = rstrip a.
Proof.
  intros H; unfold rstrip.
  rewrite rev_app_distr, lstrip_spaces; [reflexivity|].
  now apply Forall_rev.
Qed.

(** A document that decodes to an object is, once trimmed, the text of the
    object from brace to brace, and decodes to the same object. *)
Lemma loads_object_strip (d : str) (kvs : dict) :
  loads d = Some (VDict kvs) ->
  exists m,
    strip d = 123%N :: m ++ [125%N]
    /\ loads (strip d) = Some (VDict kvs).
Proof.
  unfold loads at 1; intros H.
  destruct (scan_once (S (length d)) (skip_ws d)) as [[v r]|] eqn:E;
    [|discriminate].
  destruct (skip_ws r) eqn:Er; [|discriminate]. inj H.
  destruct (scan_once_object _ _ _ _ E) as [m Hm].
  set (a := 123%N :: m ++ [125%N]).
  assert (Ha : skip_ws d = a ++ r).
  { rewrite Hm; unfold a; simpl. now rewrite <- app_assoc. }
  assert (Hstrip : strip d = a).
  { unfold strip.
    rewrite (lstrip_skip_ws d 123%N (m ++ 125%N :: r)) by (auto; reflexivity).
    change (123%N :: m ++ 125%N :: r) with ((123%N :: m) ++ [125%N] ++ r).
    rewrite app_assoc, rstrip_spaces by now apply skip_ws_nil_spaces.
    apply rstrip_fix. intros c t Hc.
    unfold a in Hc. rewrite app_comm_cons in Hc.
    apply app_inj_tail in Hc as [_ <-]. reflexivity. }
  exists m; split; [exact Hstrip|].
  rewrite Hstrip. rewrite Ha in E.
  destruct (scan_once_peel _ (S (length a)) _ _ _ _ E) as (r0 & Hr & E');
    [lia|lia|].
  assert (r0 = []) as ->.
  { apply (f_equal (@length _)) in Hr. rewrite length_app in Hr.
    destruct r0; [reflexivity|simpl in Hr; lia]. }
  unfold loads. unfold a at 2. rewrite skip_ws_fix by reflexivity.
  fold a. now rewrite E'.
Qed.

End JsonFacts.

(** C8 (as the code has it). For a document that decodes to a JSON object,
    wrapped in a fenced block whose opening line holds no line break, the
    cleanup pipeline yields the document trimmed, and its parse is the parse
    of the document itself. *)
Theorem fenced_object_cleans_to_the_same_parse :
  forall (info d : str) (kvs : dict),
    mem 10%N info = false ->
    Json.loads d = Some (VDict kvs) ->
    cleanup (fenced info d) = strip d
    /\ Json.loads (cleanup (fenced info d)) = Json.loads d
    /\ safe_json_load (fenced info d) = Return (VDict kvs).
Proof.
  intros info d kvs Hinfo Hd.
  destruct (JsonFacts.loads_object_strip d kvs Hd) as (m & Hs & Hl).
  assert (Hc : cleanup (fenced info d) = strip d).
  { unfold cleanup. rewrite strip_markdown_fences_fenced by assumption.
    now apply force_json_only_braced with (m := m). }
  repeat split; [exact Hc|congruence|].
  unfold safe_json_load. fold (cleanup (fenced info d)).
  now rewrite Hc, Hl.
Qed.

(** * Further properties of the code *)

(** ** Token budget *)

(** X1. The budget never exceeds 6500 and never shrinks as the count grows;
    for the counts the endpoints let through it is 1200 + 350 n, below the
    cap, and from 16 slides on it is the cap. *)
Theorem estimate_max_tokens_scales_below_the_cap :
  forall n m : Z,
    estimate_max_tokens n <= 6500
    /\ (n <= m -> estimate_max_tokens n <= estimate_max_tokens m)
    /\ (3 <= n <= 15 ->
        estimate_max_tokens n = 1200 + 350 * n
        /\ 2250 <= estimate_max_tokens n <= 6450)
    /\ (16 <= n -> estimate_max_tokens n = 6500).
Proof.
  intros n m; unfold estimate_max_tokens; repeat split; intros; lia.
Qed.

(** ** Searching and slicing *)

Lemma startswith_nil (s : str) : startswith s [] = true.
Proof. now destruct s. Qed.

Lemma startswith_char (c x : N) (t : str) :
  startswith (x :: t) [c] = (c =? x)%N.
Proof. simpl. rewrite startswith_nil. apply andb_true_r. Qed.

(** [find] for one character: its first occurrence, or -1. *)
Lemma find_from_char (c : N) (s : str) (i : Z) :
  (mem c s = false /\ find_from i s [c] = -1)
  \/ (exists a b, s = a ++ c :: b /\ mem c a = false
                  /\ find_from i s [c] = i + len a).
Proof.
  revert i; induction s as [|x t IH]; intros i.
  - left; split; reflexivity.
  - cbn [find_from]. rewrite startswith_char.
    destruct (c =? x)%N eqn:E.
    + apply N.eqb_eq in E; subst x.
      right; exists [], t; repeat split. unfold len; simpl; lia.
    + destruct (IH (i + 1)) as [[Hm Hf]|(a & b & -> & Hm & Hf)].
      * left; split; [simpl; now rewrite E|exact Hf].
      * right; exists (x :: a), b; repeat split.
        -- simpl; now rewrite E.
        -- rewrite Hf. unfold len; cbn [length]; lia.
Qed.

(** [rfind] for one character: its last occurrence, or what was found
    before. *)
Lemma rfind_from_char (c : N) (s : str) (i last : Z) :
  (mem c s = false /\ rfind_from i s [c] last = last)
  \/ (exists a b, s = a ++ c :: b /\ mem c b = false
                  /\ rfind_from i s [c] last = i + len a).
Proof.
  revert i last; induction s as [|x t IH]; intros i last.
  - left; split; reflexivity.
  - cbn [rfind_from]; cbv zeta. rewrite startswith_char.
    destruct (IH (i + 1) (if (c =? x)%N then i else last))
      as [[Hm Hf]|(a & b & -> & Hm & Hf)].
    + destruct (c =? x)%N eqn:E.
      * apply N.eqb_eq in E; subst x.
        right; exists [], t; repeat split; [assumption|].
        rewrite Hf. unfold len; simpl; lia.
      * left; split; [simpl; now rewrite E|exact Hf].
    + right; exists (x :: a), b; repeat split; [assumption|].
      rewrite Hf. unfold len; cbn [length]; lia.
Qed.

Lemma slice_middle {A} (p x q : list A) :
  slice (p ++ x ++ q) (Some (len p)) (Some (len p + len x)) = x.
Proof.
  unfold slice, clamp, len.
  destruct (Z.ltb_spec (Z.of_nat (length p)) 0); [lia|].
  destruct (Z.ltb_spec (Z.of_nat (length p) + Z.of_nat (length x)) 0); [lia|].
  rewrite !length_app.
  rewrite !Z.min_l by lia.
  replace (Z.of_nat (length p) + Z.of_nat (length x) - Z.of_nat (length p))
    with (Z.of_nat (length x)) by lia.
  rewrite !Nat2Z.id, skipn_app, skipn_all, Nat.sub_diag; simpl.
  replace (length x) with (length x + 0)%nat by lia.
  rewrite firstn_app_2; simpl. apply app_nil_r.
Qed.

Lemma strip_idem (s : str) : strip (strip s) = strip s.
Proof. apply strip_fix, strip_trimmed. Qed.

Lemma braced_trimmed (m : str) : trimmed (123%N :: m ++ [125%N]).
Proof.
  split; intros c u E.
  - now injection E as <- _.
  - rewrite app_comm_cons in E. apply app_inj_tail in E as [_ <-]. reflexivity.
Qed.

(** What brace slicing does to a trimmed text: nothing when a brace is
    missing or the last closing brace does not follow the first opening one;
    otherwise it keeps the span from the one to the other. *)
Lemma force_json_only_cases (t : str) :
  trimmed t ->
  (force_json_only t = t
   /\ (mem 123%N t = false \/ mem 125%N t = false
       \/ rfind t (lit "}") <= find t (lit "{")))
  \/ (exists p m q,
        t = p ++ (123%N :: m ++ [125%N]) ++ q
        /\ mem 123%N p = false /\ mem 125%N q = false
        /\ force_json_only t = 123%N :: m ++ [125%N]).
Proof.
  intros Ht. unfold force_json_only. rewrite (strip_fix t Ht).
  unfold find, rfind.
  change (lit "{") with [123%N]; change (lit "}") with [125%N].
  destruct (find_from_char 123 t 0) as [[Hm Hf]|(a & b & E1 & Hm1 & Hf)];
    rewrite Hf.
  { left; split; [reflexivity|now left]. }
  destruct (rfind_from_char 125 t 0 (-1)) as [[Hm Hr]|(a' & b' & E2 & Hm2 & Hr)];
    rewrite Hr.
  { left; split; [|right; now left].
    now rewrite orb_true_r. }
  pose proof (len_nonneg a) as Ha. pose proof (len_nonneg a') as Ha'.
  replace (0 + len a =? -1) with false by (symmetry; apply Z.eqb_neq; lia).
  replace (0 + len a' =? -1) with false by (symmetry; apply Z.eqb_neq; lia).
  cbn [orb].
  destruct (Z.leb_spec (0 + len a') (0 + len a)) as [Hle|Hgt].
  { left; split; [reflexivity|right; right; exact Hle]. }
  right.
  assert (E : a ++ 123%N :: b = a' ++ 125%N :: b') by congruence.
  apply app_eq_app in E as [l [[-> E]|[-> E]]].
  { unfold len in Hgt; rewrite length_app in Hgt; lia. }
  destruct l as [|x m].
  { unfold len in Hgt; rewrite app_nil_r in Hgt; lia. }
  simpl in E; injection E as <- ->.
  assert (Et : t = a ++ (123%N :: m ++ [125%N]) ++ b').
  { rewrite E1. simpl. now rewrite <- app_assoc. }
  exists a, m, b'; repeat split; try assumption.
  - rewrite Et at 1.
    replace (0 + len (a ++ 123%N :: m) + 1)
      with (len a + len (123%N :: m ++ [125%N]))
      by (unfold len; rewrite !length_app; cbn [length];
          rewrite length_app; cbn [length]; lia).
    replace (0 + len a) with (len a) by lia.
    rewrite slice_middle. apply strip_fix, braced_trimmed.
Qed.

(** X2. Brace slicing returns either the trimmed text unchanged, when it has
    no opening brace, no closing brace, or no closing brace after the first
    opening one, or the span from the first opening brace to the last
    closing brace; applying it twice changes nothing more. *)
Theorem force_json_only_keeps_outer_braces_and_is_idempotent :
  forall text : str,
    ((force_json_only text = strip text
      /\ (mem 123%N (strip text) = false \/ mem 125%N (strip text) = false
          \/ rfind (strip text) (lit "}") <= find (strip text) (lit "{")))
     \/ (exists p m q,
           strip text = p ++ (123%N :: m ++ [125%N]) ++ q
           /\ mem 123%N p = false /\ mem 125%N q = false
           /\ force_json_only text = 123%N :: m ++ [125%N]))
    /\ force_json_only (force_json_only text) = force_json_only text.
Proof.
  intros text.
  assert (Hs : force_json_only text = force_json_only (strip text)).
  { unfold force_json_only. now rewrite strip_idem. }
  pose proof (force_json_only_cases (strip text) (strip_trimmed text)) as H.
  rewrite <- Hs in H. split; [exact H|].
  destruct H as [[H _]|(p & m & q & _ & _ & _ & H)].
  - rewrite H at 1. now rewrite <- Hs.
  - rewrite H. now apply force_json_only_braced with (m := m).
Qed.

(** ** Requests and errors of the endpoints *)

Section GenerationFacts.

Context {rt : Runtime}.

Lemma groq_chat_cases (prompt model : str) (max_tokens : Z) (json_mode : bool)
    (w : world) :
  (nonempty (GROQ_API_KEY w) = false
   /\ groq_chat prompt model max_tokens json_mode w
      = (Raise (HTTPException 500 (VStr (lit "GROQ_API_KEY missing on server"))),
         w))
  \/ (nonempty (GROQ_API_KEY w) = true
      /\ Reply.status_code (remote w (length (calls w))) <> 200
      /\ groq_chat prompt model max_tokens json_mode w
         = (Raise (HTTPException
                     (Reply.status_code (remote w (length (calls w))))
                     (VStr (Reply.text (remote w (length (calls w)))))),
            post (payload (GROQ_API_KEY w) prompt model max_tokens json_mode) w))
  \/ (nonempty (GROQ_API_KEY w) = true
      /\ Reply.status_code (remote w (length (calls w))) = 200
      /\ groq_chat prompt model max_tokens json_mode w
         = (Return (Reply.content (remote w (length (calls w)))),
            post (payload (GROQ_API_KEY w) prompt model max_tokens json_mode) w)).
Proof.
  unfold groq_chat.
  destruct (nonempty (GROQ_API_KEY w)); [right|left; auto].
  destruct (Z.eqb_spec (Reply.status_code (remote w (length (calls w)))) 200);
    [right|left]; auto.
Qed.

Lemma sends_nothing (w : world) : sends w w [].
Proof. unfold sends; now rewrite app_nil_r. Qed.

Lemma sends_post (w : world) (r : Request.t) : sends w (post r w) [r].
Proof. repeat split. Qed.

Lemma sends_post2 (w : world) (r1 r2 : Request.t) :
  sends w (post r2 (post r1 w)) [r1; r2].
Proof. repeat split. simpl. now rewrite <- app_assoc. Qed.


(** Case analysis on a generation: every call of the client, every decoding
    and every normalization. *)
Ltac run_generation :=
  unfold bind, lift, ret, raise;
  repeat match goal with
    | |- context [groq_chat ?p ?m ?t ?j ?w0] =>
        let Hk := fresh "Hkey" in
        let Hs := fresh "Hstatus" in
        let E := fresh "Echat" in
        destruct (groq_chat_cases p m t j w0)
          as [[Hk E]|[(Hk & Hs & E)|(Hk & Hs & E)]];
        rewrite E; clear E; cbv beta iota;
        cbn [GROQ_API_KEY remote calls logo_exists post] in *
    | |- context [safe_json_load ?r] =>
        let E := fresh "Eload" in destruct (safe_json_load r) eqn:E
    | |- context [normalize_slides ?d ?k] =>
        let E := fresh "Enorm" in
        destruct (normalize_slides d k) as [[?|]|?] eqn:E
    end.

(** X4. Generation sends no request, the request of attempt 1, or that
    request followed by the retry request, never more, and changes nothing
    else of the world; so does the GET endpoint of the PDF. *)
Theorem generation_sends_at_most_two_requests :
  forall (topic : str) (slideCount : Z) (w : world),
    let req :=
      {| DeckRequest.topic := topic; DeckRequest.slideCount := Some slideCount |} in
    let n := or_default (Some slideCount) 5 in
    let first := first_request (GROQ_API_KEY w) (strip topic) n in
    let retry := retry_request (GROQ_API_KEY w) (strip topic) n in
    (exists sent,
       sends w (snd (generate_deck req w)) sent
       /\ (sent = [] \/ sent = [first] \/ sent = [first; retry]))
    /\ (exists sent,
          sends w (snd (download_pdf_get topic slideCount w)) sent
          /\ (sent = [] \/ sent = [first] \/ sent = [first; retry])).
Proof.
  intros topic sc w req n first retry.
  unfold generate_deck, download_pdf_get, req.
  cbn [DeckRequest.topic DeckRequest.slideCount]. fold n.
  destruct (negb (nonempty (strip topic)));
    [split; exists []; split; auto using sends_nothing|].
  destruct ((n <? 3) || (n >? 15));
    [split; exists []; split; auto using sends_nothing|].
  split; run_generation; cbn [snd];
    first [ exists []; split; [apply sends_nothing|now left]
          | exists [first]; split; [apply sends_post|now right; left]
          | exists [first; retry]; split; [apply sends_post2|now right; right] ].
Qed.

(** X5. Without a credential a valid request ends with status 500 and the
    message that the key is missing, on both generating endpoints, and no
    request is sent. *)
Theorem missing_credential_is_reported_without_a_request :
  forall (topic : str) (slideCount : Z) (w : world),
    nonempty (strip topic) = true ->
    3 <= or_default (Some slideCount) 5 <= 15 ->
    nonempty (GROQ_API_KEY w) = false ->
    let e := HTTPException 500 (VStr (lit "GROQ_API_KEY missing on server")) in
    generate_deck
      {| DeckRequest.topic := topic; DeckRequest.slideCount := Some slideCount |} w
    = (Raise e, w)
    /\ download_pdf_get topic slideCount w = (Raise e, w).
Proof.
  intros topic sc w Ht Hn Hk e.
  unfold generate_deck, download_pdf_get.
  cbn [DeckRequest.topic DeckRequest.slideCount].
  rewrite Ht, in_range by exact Hn; cbn [negb].
  unfold bind, groq_chat; rewrite Hk; split; reflexivity.
Qed.

(** X6. A status other than 200 from the completion service is raised with
    the upstream status and body and is never retried: on attempt 1 after
    that one request, and on attempt 2, reached because the first text
    decoded to an object that failed normalization, after the two. *)
Theorem upstream_failure_is_raised_and_not_retried :
  forall (topic : str) (slideCount : Z) (w : world),
    nonempty (strip topic) = true ->
    3 <= or_default (Some slideCount) 5 <= 15 ->
    nonempty (GROQ_API_KEY w) = true ->
    let req :=
      {| DeckRequest.topic := topic; DeckRequest.slideCount := Some slideCount |} in
    let n := or_default (Some slideCount) 5 in
    let first := first_request (GROQ_API_KEY w) (strip topic) n in
    let retry := retry_request (GROQ_API_KEY w) (strip topic) n in
    let r1 := remote w (length (calls w)) in
    let r2 := remote w (S (length (calls w))) in
    let upstream r :=
      HTTPException (Reply.status_code r) (VStr (Reply.text r)) in
    (Reply.status_code r1 <> 200 ->
     generate_deck req w = (Raise (upstream r1), post first w)
     /\ download_pdf_get topic slideCount w = (Raise (upstream r1), post first w))
    /\ (forall decoded1,
          Reply.status_code r1 = 200 ->
          safe_json_load (Reply.content r1) = Return decoded1 ->
          normalize_slides decoded1 n = Return None ->
          Reply.status_code r2 <> 200 ->
          generate_deck req w
          = (Raise (upstream r2), post retry (post first w))
          /\ download_pdf_get topic slideCount w
             = (Raise (upstream r2), post retry (post first w))).
Proof.
  intros topic sc w Ht Hn Hk req n first retry r1 r2 upstream.
  assert (Hlen : length (calls (post first w)) = S (length (calls w)))
    by apply length_calls_post.
  unfold generate_deck, download_pdf_get, req.
  cbn [DeckRequest.topic DeckRequest.slideCount]. fold n.
  rewrite Ht, in_range by exact Hn; cbn [negb].
  split.
  - intros Hs. unfold bind at 1 7.
    destruct (groq_chat_cases (build_prompt (strip topic) n) llama
                (estimate_max_tokens n) true w)
      as [[Hk' _]|[(_ & _ & ->)|(_ & Hs' & _)]];
      [congruence| |contradiction].
    split; reflexivity.
  - intros decoded1 Hs1 Hload Hnorm Hs2.
    unfold bind, lift.
    destruct (groq_chat_cases (build_prompt (strip topic) n) llama
                (estimate_max_tokens n) true w)
      as [[Hk' _]|[(_ & Hs' & _)|(_ & _ & ->)]];
      [congruence|contradiction|].
    fold r1. rewrite Hload, Hnorm.
    change (post (payload (GROQ_API_KEY w) (build_prompt (strip topic) n) llama
                    (estimate_max_tokens n) true) w) with (post first w).
    destruct (groq_chat_cases (build_retry_prompt (strip topic) n) llama
                (estimate_max_tokens n + 1200) true (post first w))
      as [[Hk' _]|[(_ & _ & ->)|(_ & Hs' & _)]].
    + cbn [post GROQ_API_KEY] in Hk'; congruence.
    + rewrite Hlen. split; reflexivity.
    + rewrite Hlen in Hs'. contradiction.
Qed.

(** X7. An empty topic is reported first, whatever the count, and an
    out-of-range count next, each with status 400 and its own message, by
    both generating endpoints; nothing is sent. *)
Theorem validation_reports_topic_before_count :
  forall (topic : str) (slideCount : Z) (w : world),
    let req :=
      {| DeckRequest.topic := topic; DeckRequest.slideCount := Some slideCount |} in
    let n := or_default (Some slideCount) 5 in
    let bad message := HTTPException 400 (VStr message) in
    (strip topic = [] ->
     generate_deck req w = (Raise (bad (lit "topic is required")), w)
     /\ download_pdf_get topic slideCount w
        = (Raise (bad (lit "topic is required")), w))
    /\ (strip topic <> [] -> n < 3 \/ 15 < n ->
        generate_deck req w
        = (Raise (bad (lit "slideCount must be between 3 and 15")), w)
        /\ download_pdf_get topic slideCount w
           = (Raise (bad (lit "slideCount must be between 3 and 15")), w)).
Proof.
  intros topic sc w req n bad.
  unfold generate_deck, download_pdf_get, req.
  cbn [DeckRequest.topic DeckRequest.slideCount]. fold n.
  split.
  - intros ->; split; reflexivity.
  - intros Ht Hn. destruct (strip topic); [congruence|].
    cbn [nonempty negb]. rewrite (out_of_range n Hn). split; reflexivity.
Qed.

(** X8. The POST endpoint of the PDF never calls the completion service and
    leaves the world as it was; it reports an empty topic before an empty
    list of slides, each with status 400, and otherwise answers with media
    type application/pdf. *)
Theorem download_pdf_validates_and_sends_nothing :
  forall (req : PdfRequest.t) (w : world),
    let bad message := HTTPException 400 (VStr message) in
    snd (download_pdf req w) = w
    /\ (strip (PdfRequest.topic req) = [] ->
        fst (download_pdf req w) = Raise (bad (lit "topic is required")))
    /\ (strip (PdfRequest.topic req) <> [] -> PdfRequest.slides req = [] ->
        fst (download_pdf req w) = Raise (bad (lit "slides list is required")))
    /\ (forall resp,
          fst (download_pdf req w) = Return resp ->
          Response.media_type resp = lit "application/pdf"
          /\ strip (PdfRequest.topic req) <> []
          /\ PdfRequest.slides req <> []).
Proof.
  intros req w bad. unfold download_pdf.
  destruct (strip (PdfRequest.topic req)) as [|c t]; cbn [nonempty negb].
  - repeat split; try congruence; discriminate.
  - destruct (PdfRequest.slides req) as [|s l];
      [change (len (@nil dict) =? 0) with true
      |replace (len (s :: l) =? 0) with false
         by (symmetry; apply Z.eqb_neq; unfold len; simpl; lia)];
      cbv iota; cbn [fst snd];
      (split; [reflexivity|]);
      (split; [intros; first [reflexivity|congruence]|]);
      (split; [intros; first [reflexivity|congruence]|]);
      intros resp H; try discriminate.
    injection H as <-. repeat split; discriminate.
Qed.

Lemma len_slice_to {A} (l : list A) (n : Z) :
  0 <= n -> len (slice l None (Some n)) <= n.
Proof.
  intros H. rewrite slice_to by exact H. unfold len.
  rewrite length_firstn. lia.
Qed.

Lemma normalize_slides_raises (decoded : value) (n : Z) (e : exn) :
  normalize_slides decoded n = Raise e -> e = AttributeError decoded (lit "get").
Proof.
  destruct decoded as [| | | | | |d]; try (intros H; now injection H as <-).
  rewrite normalize_slides_spec; discriminate.
Qed.

Lemma previews_bounded_str (s : str) : previews_bounded (VStr s).
Proof. intros d k v H; discriminate. Qed.

Lemma previews_bounded_invalid_json (cleaned : str) :
  previews_bounded (invalid_json_detail cleaned).
Proof.
  intros d k v H Hin Hk; injection H as <-.
  destruct Hin as [H|[H|[]]]; injection H as <- <-; [congruence|].
  eexists; split; [reflexivity|apply len_slice_to; lia].
Qed.

Lemma previews_bounded_inconsistent (n : Z) (decoded1 decoded2 : value) :
  previews_bounded (inconsistent_detail n decoded1 decoded2).
Proof.
  intros d k v H Hin Hk; injection H as <-.
  destruct Hin as [H|[H|[H|[]]]]; injection H as <- <-; [congruence| |];
    (eexists; split; [reflexivity|apply len_slice_to; lia]).
Qed.

(** X9. Whatever error a generation raises with a structured detail, the
    previews it carries, of the cleaned text or of the two decoded attempts,
    are strings of at most 900 characters; the preview of text that does not
    decode is the beginning of the cleaned text. *)
Theorem error_previews_hold_at_most_900_characters :
  forall (req : DeckRequest.t) (w w' : world) (status : Z) (detail : value),
    generate_deck req w = (Raise (HTTPException status detail), w') ->
    previews_bounded detail
    /\ forall raw,
         Json.loads (cleanup raw) = None ->
         exists preview,
           safe_json_load raw
           = Raise (HTTPException 500
                      (VDict [ (lit "error", VStr (lit "Invalid JSON from model"));
                               (lit "cleaned_preview", VStr preview) ]))
           /\ preview = firstn 900 (cleanup raw)
           /\ len preview <= 900.
Proof.
  intros req w w' status detail H; split.
  - revert H. unfold generate_deck.
    destruct (negb (nonempty _));
      [intros H; injection H as <- <- _; apply previews_bounded_str|].
    destruct ((_ <? 3) || (_ >? 15));
      [intros H; injection H as <- <- _; apply previews_bounded_str|].
    unfold safe_json_load.
    unfold bind, lift, ret, raise.
    repeat match goal with
      | |- context [groq_chat ?p ?m ?t ?j ?w0] =>
          let E := fresh "Echat" in
          destruct (groq_chat_cases p m t j w0)
            as [[_ E]|[(_ & _ & E)|(_ & _ & E)]];
          rewrite E; clear E; cbv beta iota
      | |- context [match Json.loads ?c with _ => _ end] =>
          destruct (Json.loads c)
      | |- context [normalize_slides ?d ?k] =>
          let E := fresh "E" in
          destruct (normalize_slides d k) as [[?|]|?] eqn:E;
          [| |apply normalize_slides_raises in E; subst]
      end;
      intros H; try discriminate; injection H as <- <- _;
      auto using previews_bounded_str, previews_bounded_invalid_json,
        previews_bounded_inconsistent.
  - intros raw Hl. rewrite safe_json_load_cleanup, Hl.
    exists (firstn 900 (cleanup raw)); repeat split.
    + unfold invalid_json_detail. now rewrite slice_to by lia.
    + unfold len. rewrite length_firstn. lia.
Qed.

Lemma replace_char_length (a b : N) (s : str) :
  length (replace_char a b s) = length s.
Proof. induction s as [|c s IH]; simpl; congruence. Qed.

Lemma replace_char_mem (a b : N) (s : str) :
  a <> b -> mem a (replace_char a b s) = false.
Proof.
  intros Hab; induction s as [|c s IH]; [reflexivity|].
  cbn [replace_char mem existsb]. fold (mem a (replace_char a b s)).
  rewrite IH, orb_false_r.
  destruct (N.eqb_spec c a); apply N.eqb_neq; congruence.
Qed.

Lemma mem_app (c : N) (a b : str) : mem c (a ++ b) = mem c a || mem c b.
Proof. apply existsb_app. Qed.

Lemma replace_char_other (a b : N) (s : str) :
  mem a s = false -> replace_char a b s = s.
Proof.
  induction s as [|c s IH]; [reflexivity|].
  cbn [mem existsb replace_char]. fold (mem a s).
  intros H; apply orb_false_iff in H as [Hc Hs].
  rewrite N.eqb_sym, Hc, IH by exact Hs. reflexivity.
Qed.

(** X10. The file name offered with a PDF is the product name, the topic with
    every space replaced by an underscore, and the extension: it holds no
    space, is 19 characters longer than the topic, and quotes the topic
    unchanged when the topic has no space. *)
Theorem pdf_filename_has_no_space :
  forall (logo : bool) (topic : str) (slides : list dict),
    Response.headers (pdf_response logo topic slides)
    = [ (lit "Content-Disposition",
         qlit "attachment; filename='" ++ filename topic ++ qlit "'") ]
    /\ mem 32%N (filename topic) = false
    /\ len (filename topic) = len topic + 19
    /\ (mem 32%N topic = false ->
        filename topic = lit "SprintSlidesAI_" ++ topic ++ lit ".pdf").
Proof.
  intros logo topic slides; unfold filename; repeat split.
  - rewrite !mem_app, replace_char_mem by discriminate. reflexivity.
  - unfold len. rewrite !length_app, replace_char_length.
    change (length (lit "SprintSlidesAI_")) with 15%nat.
    change (length (lit ".pdf")) with 4%nat. lia.
  - intros H. now rewrite replace_char_other.
Qed.

(** X11. A PDF that the GET endpoint returns renders a whole deck: as many
    normalized slides as were asked for, between 3 and 15, under the trimmed
    topic, which is not empty; at least one request was sent for it. *)
Theorem download_pdf_get_renders_a_whole_deck :
  forall (topic : str) (slideCount : Z) (w w' : world) (resp : Response.t),
    download_pdf_get topic slideCount w = (Return resp, w') ->
    exists slides,
      resp = pdf_response (logo_exists w) (strip topic) slides
      /\ len slides = or_default (Some slideCount) 5
      /\ 3 <= len slides <= 15
      /\ Forall normal_slide slides
      /\ strip topic <> []
      /\ (length (calls w) < length (calls w'))%nat.
Proof.
  intros topic sc w w' resp. unfold download_pdf_get.
  set (n := or_default (Some sc) 5).
  destruct (strip topic) as [|c t] eqn:Ht; cbn [nonempty negb];
    [discriminate|].
  destruct (Z.ltb_spec n 3); [discriminate|].
  destruct (Z.gtb_spec n 15); [discriminate|]. cbn [orb].
  run_generation; try discriminate;
    intros Hret; injection Hret as <- <-;
    cbn [logo_exists calls post];
    match goal with
    | E : normalize_slides _ _ = Return (Some ?l) |- _ =>
        exists l; pose proof (normalize_slides_some _ _ _ E) as [Hl Hf];
        repeat split; try assumption; try lia; try discriminate;
        rewrite ?length_app; simpl; lia
    end.
Qed.

End GenerationFacts.

(** ** The normalizer on its own output *)

Section NormalizerRoundTrip.

Context {rt : Runtime}.

Lemma coerce_fix (s : dict) : normal_slide s -> coerce s = s.
Proof.
  intros (slide_type & title & content & -> & Ht & Hi & Hc).
  unfold coerce.
  change (get (slide slide_type title content) (lit "type") (VStr (lit "overview")))
    with (VStr slide_type).
  change (get (slide slide_type title content) (lit "title") (VStr []))
    with (VStr title).
  change (get (slide slide_type title content) (lit "content") (VStr []))
    with (VStr content).
  cbn [py_str]. now rewrite !strip_fix.
Qed.

Lemma map_coerce_fix (slides : list dict) :
  Forall normal_slide slides -> map coerce slides = slides.
Proof.
  induction 1 as [|s l Hs _ IH]; [reflexivity|].
  simpl. now rewrite coerce_fix, IH.
Qed.

Lemma normalize_ok_payload (slides : list dict) :
  Forall normal_slide slides ->
  normalize_slides (ok_payload slides) (len slides) = Return (Some slides).
Proof.
  intros H. unfold ok_payload. rewrite normalize_slides_spec.
  unfold normalize_spec, slides_sequence.
  change (get [(lit "ok", VBool true); (lit "slides", VList (map VDict slides))]
            (lit "slides") VNone)
    with (VList (map VDict slides)).
  cbv iota.
  replace (len (map VDict slides)) with (len slides)
    by (unfold len; now rewrite length_map).
  pose proof (len_nonneg slides).
  replace (0 <=? len slides) with true by (symmetry; apply Z.leb_le; lia).
  rewrite Z.leb_refl. cbn [andb].
  unfold len. rewrite Nat2Z.id.
  rewrite firstn_all2, all_dicts_map by (rewrite length_map; apply le_n).
  cbn [option_map]. now rewrite map_coerce_fix.
Qed.

(** X12. The normalizer leaves its own output alone: coercing a slide twice
    is coercing it once, and the response of [/generateDeck], read back as a
    decoded document, normalizes to the very slides it carries, whatever
    document they came from. *)
Theorem normalize_slides_is_idempotent_through_the_response :
  forall (decoded : value) (n : Z) (slides : list dict),
    normalize_slides decoded n = Return (Some slides) ->
    normalize_slides (ok_payload slides) n = Return (Some slides)
    /\ (forall s, coerce (coerce s) = coerce s)
    /\ map coerce slides = slides.
Proof.
  intros decoded n slides H.
  destruct (normalize_slides_some _ _ _ H) as [Hl Hf].
  repeat split.
  - rewrite <- Hl. now apply normalize_ok_payload.
  - intros s. apply coerce_fix, coerce_normal.
  - now apply map_coerce_fix.
Qed.

(** X13. The count at its edges: no document has a negative number of
    slides; a count of zero is met by every sequence or mapping of slides,
    even one with entries that are not objects, and gives the empty deck; and
    a document whose [slides] is missing or neither a sequence nor a mapping
    is refused for every count. *)
Theorem normalize_slides_at_the_edges_of_the_count :
  forall (decoded : dict) (n : Z),
    (n < 0 -> normalize_slides (VDict decoded) n = Return None)
    /\ (slides_sequence decoded <> None ->
        normalize_slides (VDict decoded) 0 = Return (Some []))
    /\ (slides_sequence decoded = None ->
        normalize_slides (VDict decoded) n = Return None).
Proof.
  intros decoded n. rewrite !normalize_slides_spec. unfold normalize_spec.
  destruct (slides_sequence decoded) as [l|]; repeat split; try congruence.
  - intros Hn. replace (0 <=? n) with false by (symmetry; apply Z.leb_gt; lia).
    reflexivity.
  - intros _. pose proof (len_nonneg l).
    replace (0 <=? len l) with true by (symmetry; apply Z.leb_le; lia).
    reflexivity.
Qed.

End NormalizerRoundTrip.

(** ** The width of wrapped lines *)

Lemma trimmed_app (a mid b : str) :
  trimmed a -> a <> [] -> trimmed b -> b <> [] -> trimmed (a ++ mid ++ b).
Proof.
  intros [Ha _] Hna [_ Hb] Hnb; split; intros c t E.
  - destruct a as [|x a]; [congruence|].
    injection E as -> _. now apply (Ha c a).
  - destruct (exists_last Hnb) as (b' & y & ->).
    rewrite !app_assoc in E. apply app_inj_tail in E as [_ <-].
    now apply (Hb y b').
Qed.

Section WrapWidth.

Variable m : Z.
Variable known : str -> Prop.


Lemma wrap_step_fits (lines : list str) (current w : str) :
  word w -> known w ->
  Forall (fits m known) lines -> current = [] \/ fits m known current ->
  Forall (fits m known) (fst (wrap_step m (lines, current) w))
  /\ fits m known (snd (wrap_step m (lines, current) w)).
Proof.
  intros Hw Hk Hl Hc. unfold wrap_step.
  destruct (Z.leb_spec (len current + len w + 1) m) as [Hle|Hgt]; cbn [fst snd].
  - split; [assumption|].
    destruct Hc as [->|(Hne & Ht & _)].
    + change (strip ([] ++ lit " " ++ w)) with (strip (32%N :: w)).
      unfold strip. simpl lstrip. fold (strip w).
      rewrite strip_fix by (now apply word_trimmed).
      split; [apply Hw|split; [now apply word_trimmed|]].
      left. unfold len in *; simpl in Hle; lia.
    + assert (Hta : trimmed (current ++ lit " " ++ w)).
      { apply trimmed_app; auto; [now apply word_trimmed|apply Hw]. }
      rewrite strip_fix by exact Hta.
      split; [destruct current; [congruence|discriminate]|split; [apply Hta|]].
      left. unfold len in *. rewrite !length_app.
      change (length (lit " ")) with 1%nat. lia.
  - split.
    + destruct Hc as [->|Hc]; [assumption|].
      destruct current; [assumption|].
      apply Forall_app; split; [assumption|now constructor].
    + split; [apply Hw|split; [now apply word_trimmed|now right]].
Qed.

Lemma wrap_fold_fits (ws : list str) (st : list str * str) :
  Forall word ws -> Forall known ws ->
  Forall (fits m known) (fst st) -> snd st = [] \/ fits m known (snd st) ->
  Forall (fits m known) (fst (fold_left (wrap_step m) ws st))
  /\ (snd (fold_left (wrap_step m) ws st) = []
      \/ fits m known (snd (fold_left (wrap_step m) ws st))).
Proof.
  revert st; induction ws as [|w ws IH]; intros [lines current] Hw Hk Hl Hc.
  - split; assumption.
  - inversion Hw as [|? ? Hw1 Hw2]; inversion Hk as [|? ? Hk1 Hk2]; subst.
    cbn [fold_left].
    pose proof (wrap_step_fits lines current w Hw1 Hk1 Hl Hc) as [Hl' Hc'].
    apply IH; auto.
Qed.

Lemma wrap_text_fits (text : str) :
  (forall w, In w (split text) -> known w) ->
  Forall (fits m known) (wrap_text text m).
Proof.
  intros Hk. unfold wrap_text.
  destruct (wrap_fold_fits (split text) ([], [])) as [Hl Hc];
    [apply split_words|now apply Forall_forall|constructor|now left|].
  destruct (fold_left _ _ _) as [lines current]; cbn [fst snd] in *.
  destruct current as [|c t]; [assumption|].
  destruct Hc as [Hc|Hc]; [discriminate|].
  apply Forall_app; split; [assumption|now constructor].
Qed.

End WrapWidth.

Section WrappedLines.

Context {rt : Runtime}.

(** X14. Every line that [wrap_text] yields is non-empty, has no whitespace
    at either end, and holds at most [max_chars] characters unless it is a
    single word of the text, which is never broken; this holds of every line
    of a slide's content on the canvas, for 95 characters. *)
Theorem wrapped_lines_fit_unless_a_single_word :
  (forall (text : str) (max_chars : Z),
     Forall (fits max_chars (fun w => In w (split text)))
       (wrap_text text max_chars))
  /\ (forall (logo : bool) (s : dict),
        Forall (fits 95 word) (drawn (content_ops logo s))).
Proof.
  split.
  - intros text m. now apply wrap_text_fits.
  - intros logo s. unfold content_ops. rewrite drawn_draw_blocks.
    apply Forall_forall; intros l Hin.
    apply in_flat_map in Hin as (block & _ & Hin).
    pose proof (wrap_text_fits 95 word (strip block)) as H.
    rewrite Forall_forall in H. apply H; [|exact Hin].
    intros w Hw. pose proof (split_words (strip block)) as Hs.
    rewrite Forall_forall in Hs. now apply Hs.
Qed.

End WrappedLines.

(** ** Pages, logos and slide numbers *)

Section CanvasFacts.

Context {rt : Runtime}.

Import Units.












End CanvasFacts.

(** ** Commentary around an object *)

Lemma lstrip_split (s : str) :
  exists l, s = l ++ lstrip s /\ Forall (fun c => isspace c = true) l.
Proof.
  induction s as [|c s (l & E & Hl)]; [now exists []|].
  cbn [lstrip]. destruct (isspace c) eqn:Hc.
  - exists (c :: l); split; [simpl; congruence|now constructor].
  - now exists [].
Qed.

Lemma rstrip_split (s : str) :
  exists r, s = rstrip s ++ r /\ Forall (fun c => isspace c = true) r.
Proof.
  destruct (lstrip_split (rev s)) as (l & E & Hl).
  exists (rev l); split.
  - unfold rstrip. rewrite <- rev_app_distr, <- E. now rewrite rev_involutive.
  - apply Forall_forall; intros c Hin. rewrite <- in_rev in Hin.
    rewrite Forall_forall in Hl. now apply Hl.
Qed.

Lemma strip_split (s : str) :
  exists l r,
    s = l ++ strip s ++ r
    /\ Forall (fun c => isspace c = true) l
    /\ Forall (fun c => isspace c = true) r.
Proof.
  destruct (lstrip_split s) as (l & El & Hl).
  destruct (rstrip_split (lstrip s)) as (r & Er & Hr).
  exists l, r; repeat split; try assumption.
  unfold strip. now rewrite <- Er.
Qed.

Lemma spaces_mem (c : N) (l : str) :
  isspace c = false -> Forall (fun x => isspace x = true) l -> mem c l = false.
Proof.
  intros Hc; induction 1 as [|x l Hx _ IH]; [reflexivity|].
  cbn [mem existsb]. fold (mem c l). rewrite IH, orb_false_r.
  apply N.eqb_neq; intros ->; congruence.
Qed.

(** Stripping on the left keeps a text that starts with a character which is
    not whitespace, and everything after it. *)
Lemma lstrip_keep (a b : str) (c : N) :
  isspace c = false ->
  exists l p, a = l ++ p /\ lstrip (a ++ c :: b) = p ++ c :: b.
Proof.
  intros Hc. destruct (lstrip_split a) as (l & E & _).
  rewrite lstrip_app. destruct (lstrip a) as [|x t] eqn:Ea.
  - exists a, []; split; [now rewrite app_nil_r|].
    now rewrite lstrip_nonspace.
  - exists l, (x :: t); split; [exact E|reflexivity].
Qed.

Lemma rstrip_keep (a b : str) (c : N) :
  isspace c = false ->
  exists q r, b = q ++ r /\ rstrip (a ++ c :: b) = a ++ c :: q.
Proof.
  intros Hc. destruct (lstrip_keep (rev b) (rev a) c Hc) as (l & p & E & H).
  exists (rev p), (rev l); split.
  - rewrite <- rev_app_distr, <- E. now rewrite rev_involutive.
  - unfold rstrip. rewrite rev_app_distr. cbn [rev].
    rewrite <- app_assoc. cbn [app]. rewrite H.
    rewrite rev_app_distr. cbn [rev]. rewrite rev_involutive.
    now rewrite <- app_assoc.
Qed.

Lemma mem_app_false (c : N) (a b : str) :
  mem c (a ++ b) = false -> mem c a = false /\ mem c b = false.
Proof. rewrite mem_app. apply orb_false_iff. Qed.

(** Stripping a text around a core that starts and ends with characters
    which are not whitespace keeps the core, after the end of what stood
    before it and before the beginning of what stood after it. *)
Lemma strip_keep (a core b : str) (x y : N) (m : str) :
  core = x :: m ++ [y] -> isspace x = false -> isspace y = false ->
  exists l p q r,
    a = l ++ p /\ b = q ++ r /\ strip (a ++ core ++ b) = p ++ core ++ q.
Proof.
  intros -> Hx Hy.
  destruct (lstrip_keep a (m ++ [y] ++ b) x Hx) as (l & p & Ea & Hl).
  destruct (rstrip_keep (p ++ x :: m) b y Hy) as (q & r & Eb & Hr).
  exists l, p, q, r; repeat split; try assumption.
  unfold strip. cbn [app]. rewrite <- app_assoc. cbn [app] in Hl |- *.
  rewrite Hl.
  replace (p ++ x :: m ++ y :: b) with ((p ++ x :: m) ++ y :: b)
    by (now rewrite <- app_assoc).
  rewrite Hr. now rewrite <- !app_assoc.
Qed.

Lemma rfind_from_none (c : N) (s : str) (i last : Z) :
  mem c s = false -> rfind_from i s [c] last = last.
Proof.
  revert i last; induction s as [|x t IH]; intros i last H; [reflexivity|].
  cbn [mem existsb] in H. fold (mem c t) in H.
  apply orb_false_iff in H as [Hx Ht].
  cbn [rfind_from]; cbv zeta. rewrite startswith_char, Hx. now apply IH.
Qed.

Lemma rfind_from_last (c : N) (a b : str) (i last : Z) :
  mem c b = false -> rfind_from i (a ++ c :: b) [c] last = i + len a.
Proof.
  intros Hb; revert i last; induction a as [|x a IH]; intros i last.
  - cbn [app rfind_from]; cbv zeta.
    rewrite startswith_char, N.eqb_refl, rfind_from_none by exact Hb.
    unfold len; simpl; lia.
  - cbn [app rfind_from]; cbv zeta. rewrite IH.
    unfold len; cbn [length]; lia.
Qed.

(** Brace slicing of a trimmed text with an opening brace that nothing
    before it repeats and a closing brace that nothing after it repeats. *)
Lemma force_json_only_at (t p m q : str) :
  trimmed t ->
  t = p ++ (123%N :: m ++ [125%N]) ++ q ->
  mem 123%N p = false -> mem 125%N q = false ->
  force_json_only t = 123%N :: m ++ [125%N].
Proof.
  intros Ht E Hp Hq. unfold force_json_only. rewrite (strip_fix t Ht).
  unfold find, rfind.
  change (lit "{") with [123%N]; change (lit "}") with [125%N].
  assert (Hf : find_from 0 t [123%N] = len p).
  { rewrite E. cbn [app].
    change (p ++ 123%N :: (m ++ [125%N]) ++ q)
      with (p ++ [123%N] ++ ((m ++ [125%N]) ++ q)).
    now rewrite find_from_first. }
  assert (Hr : rfind_from 0 t [125%N] (-1) = len p + len m + 1).
  { rewrite E.
    replace (p ++ (123%N :: m ++ [125%N]) ++ q)
      with ((p ++ 123%N :: m) ++ 125%N :: q)
      by (cbn [app]; now rewrite <- !app_assoc).
    rewrite rfind_from_last by exact Hq.
    unfold len; rewrite length_app; cbn [length]; lia. }
  rewrite Hf, Hr.
  pose proof (len_nonneg p). pose proof (len_nonneg m).
  replace (len p =? -1) with false by (symmetry; apply Z.eqb_neq; lia).
  replace (len p + len m + 1 =? -1) with false
    by (symmetry; apply Z.eqb_neq; lia).
  replace (len p + len m + 1 <=? len p) with false
    by (symmetry; apply Z.leb_gt; lia).
  cbn [orb]. rewrite E.
  replace (len p + len m + 1 + 1) with (len p + len (123%N :: m ++ [125%N]))
    by (unfold len; cbn [length]; rewrite length_app; cbn [length]; lia).
  rewrite slice_middle. apply strip_fix, braced_trimmed.
Qed.

(** X16. Commentary around a JSON object is discarded: when the text does
    not open with a fence, what stands before the document has no opening
    brace and what stands after it no closing brace, cleanup yields the
    document trimmed and [safe_json_load] returns the object it denotes. *)
Theorem commentary_around_an_object_is_discarded :
  forall (before d after : str) (kvs : dict),
    mem 123%N before = false ->
    mem 125%N after = false ->
    startswith (strip (before ++ d ++ after)) fence = false ->
    Json.loads d = Some (VDict kvs) ->
    cleanup (before ++ d ++ after) = strip d
    /\ safe_json_load (before ++ d ++ after) = Return (VDict kvs).
Proof.
  intros before d after kvs Hb Ha Hf Hd.
  destruct (JsonFacts.loads_object_strip d kvs Hd) as (m & Hs & Hl).
  destruct (strip_split d) as (l & r & Ed & Hsl & Hsr).
  assert (Hc : cleanup (before ++ d ++ after) = strip d).
  { unfold cleanup, strip_markdown_fences; cbv zeta. rewrite Hf, strip_idem.
    rewrite Hs.
    destruct (strip_keep (before ++ l) (strip d) (r ++ after) 123 125 m Hs
                eq_refl eq_refl) as (l' & p & q & r' & Ep & Eq & E).
    replace ((before ++ l) ++ strip d ++ r ++ after)
      with (before ++ d ++ after) in E
      by (rewrite Ed at 1; now rewrite <- !app_assoc).
    rewrite Hs in E.
    apply force_json_only_at with (p := p) (q := q);
      [apply strip_trimmed|exact E| |].
    - assert (H : mem 123%N (before ++ l) = false)
        by (rewrite mem_app, Hb, spaces_mem by (assumption || reflexivity);
            reflexivity).
      rewrite Ep in H. now apply mem_app_false in H.
    - assert (H : mem 125%N (r ++ after) = false)
        by (rewrite mem_app, Ha, spaces_mem by (assumption || reflexivity);
            reflexivity).
      rewrite Eq in H. now apply mem_app_false in H. }
  split; [exact Hc|].
  rewrite safe_json_load_cleanup, Hc, Hl. reflexivity.
Qed.

(** ** The prompts *)

Lemma join_snoc (sep : str) (g : list str) (w : str) :
  g <> [] -> join sep (g ++ [w]) = join sep g ++ sep ++ w.
Proof.
  induction g as [|x g IH]; [congruence|intros _].
  destruct g as [|y g]; [reflexivity|].
  change (join sep ((x :: y :: g) ++ [w]))
    with (x ++ sep ++ join sep ((y :: g) ++ [w])).
  rewrite IH by discriminate.
  change (join sep (x :: y :: g)) with (x ++ sep ++ join sep (y :: g)).
  now rewrite <- !app_assoc.
Qed.

(** Lines joined by line breaks, when the first line starts and the last
    line ends with a character which is not whitespace. *)
Lemma trimmed_lines (first last : str) (middle : list str) (c x : N)
    (t u : str) :
  first = c :: t -> isspace c = false ->
  last = u ++ [x] -> isspace x = false ->
  trimmed (join nl (first :: middle ++ [last]))
  /\ join nl (first :: middle ++ [last]) <> [].
Proof.
  intros -> Hc -> Hx.
  change ((c :: t) :: middle ++ [u ++ [x]])
    with (((c :: t) :: middle) ++ [u ++ [x]]).
  rewrite join_snoc by discriminate.
  assert (E : exists r, join nl ((c :: t) :: middle) = c :: r).
  { destruct middle; [now exists t|]. now eexists. }
  destruct E as [r ->]. split; [split; intros c' t' E|discriminate].
  - now injection E as <- _.
  - rewrite !app_assoc in E.
    apply app_inj_tail in E as [_ <-]. exact Hx.
Qed.

(** The text of a triple-quoted template, between its two outer line breaks,
    is what [strip] leaves. *)
Lemma strip_lines (first last : str) (middle : list str) (c x : N) (t u : str) :
  first = c :: t -> isspace c = false ->
  last = u ++ [x] -> isspace x = false ->
  strip (join nl ([] :: (first :: middle ++ [last]) ++ [[]]))
  = join nl (first :: middle ++ [last]).
Proof.
  intros Hf Hc Hl Hx.
  destruct (trimmed_lines first last middle c x t u Hf Hc Hl Hx) as [Ht Hne].
  change ([] :: (first :: middle ++ [last]) ++ [[]])
    with (([] :: first :: middle ++ [last]) ++ [[]]).
  rewrite join_snoc by discriminate.
  change (join nl ([] :: first :: middle ++ [last]))
    with ([] ++ nl ++ join nl (first :: middle ++ [last])).
  set (body := first :: middle ++ [last]) in *.
  cbn [app]. rewrite <- app_assoc, app_nil_r.
  change (nl ++ join nl body ++ nl) with (10%N :: join nl body ++ [10%N]).
  unfold strip. cbn [lstrip]. change (isspace 10) with true. cbv iota.
  fold (strip (join nl body ++ [10%N])).
  rewrite strip_snoc_space by reflexivity. now apply strip_fix.
Qed.

(** X17. The prompts are their templates with the count, in decimal, and the
    topic put in: the primary prompt holds the count twice and any topic
    unchanged between quotes; the retry prompt holds the count once and ends
    with the topic, unchanged when it is trimmed and not empty, as the
    endpoints pass it. Nothing else of a prompt depends on the request. *)
Theorem prompts_hold_the_count_and_the_topic_unchanged :
  (exists p1 p2 p3 p4 : str,
     forall (topic : str) (n : Z),
       build_prompt topic n
       = p1 ++ of_Z n ++ p2 ++ topic ++ p3 ++ of_Z n ++ p4)
  /\ (exists r1 r2 : str,
        forall (topic : str) (n : Z),
          trimmed topic -> topic <> [] ->
          build_retry_prompt topic n = r1 ++ of_Z n ++ r2 ++ topic)
  /\ (forall (topic : str) (n : Z),
        trimmed (build_prompt topic n)
        /\ trimmed (build_retry_prompt topic n)).
Proof.
  split; [|split].
  - exists (join nl [ lit "Return ONLY strict JSON. No markdown. No commentary.";
                      []; lit "You are an expert academic coach."; [];
                      lit "Create a " ]),
           (qlit "-slide revision deck for the topic: '"),
           (join nl [ qlit "'."; lit "Focus strongly on:"; lit "1) Active Recall";
                      lit "2) Structural Learning"; []; lit "STRICT RULES:";
                      lit "- Output MUST be valid JSON";
                      lit "- Must start with { and end with }";
                      lit "- No extra text before or after JSON";
                      qlit "- 'slides' MUST be a JSON ARRAY (list)";
                      lit "- EXACTLY " ]),
           (join nl
              ([ lit " slides"; lit "- Never return slides as an object/dict";
                 []; lit "Schema:" ]
               ++ schema
               ++ [ []; lit "Slide requirements:";
                    lit "- Each slide should be rich: 8" ++ [8211%N]
                      ++ lit "12 bullet points OR detailed explanation";
                    lit "- Assume exam revision: include definitions, key concepts, common traps/mistakes";
                    lit "- Use \n for newlines in content";
                    lit "- Ensure JSON is complete (quotes closed etc.)";
                    []; lit "Now output ONLY the JSON." ])).
    intros topic n. unfold build_prompt.
    generalize (of_Z n) as k; intros k.
    match goal with
    | |- strip (join nl ?L) = _ =>
        change L with ([] :: (hd [] (tl L)
                              :: removelast (tl (removelast (tl L)))
                              ++ [last (removelast L) []]) ++ [[]])
    end.
    erewrite strip_lines;
      [|vm_compute; reflexivity|reflexivity
       |instantiate (2 := lit "Now output ONLY the JSON"); vm_compute; reflexivity
       |reflexivity].
    cbn [hd tl removelast last app schema join].
    rewrite <- !app_assoc. reflexivity.
  - exists (join nl
              ([ lit "RETURN JSON ONLY."; []; lit "Schema:" ]
               ++ schema
               ++ [ []; lit "RULES:"; lit "- slides MUST be an array";
                    lit "- EXACTLY " ])),
           (join nl [ lit " slides"; lit "- JSON only. Nothing else.";
                      lit "- Keep content clear and complete.";
                      lit "- Use \n between bullet points."; [];
                      lit "TOPIC: " ]).
    intros topic n Ht Hne. unfold build_retry_prompt.
    generalize (of_Z n) as k; intros k.
    destruct (exists_last Hne) as (u & x & ->).
    match goal with
    | |- strip (join nl ?L) = _ =>
        change L with ([] :: (hd [] (tl L)
                              :: removelast (tl (removelast (tl L)))
                              ++ [last (removelast L) []]) ++ [[]])
    end.
    erewrite strip_lines;
      [|vm_compute; reflexivity|reflexivity
       |instantiate (2 := lit "TOPIC: " ++ u); cbn [removelast last];
        now rewrite <- app_assoc
       |now apply (proj2 Ht x u)].
    cbn [hd tl removelast last app schema join].
    rewrite <- !app_assoc. reflexivity.
  - intros topic n; split; apply strip_trimmed.
Qed.

(** ** Fences that are not closed *)

Lemma rstrip_after (a b : str) (c : N) :
  isspace c = false -> rstrip (a ++ c :: b) = a ++ c :: rstrip b.
Proof.
  intros Hc; induction a as [|x a IH]; cbn [app].
  - rewrite rstrip_cons. rewrite Hc. now destruct (rstrip b).
  - rewrite rstrip_cons, IH. now destruct a.
Qed.

Lemma rstrip_all_spaces (r : str) :
  Forall (fun c => isspace c = true) r -> rstrip r = [].
Proof.
  intros H. change r with ([] ++ r). now rewrite JsonFacts.rstrip_spaces.
Qed.

Lemma strip_nil_spaces (s : str) :
  strip s = [] -> Forall (fun c => isspace c = true) s.
Proof.
  intros H. destruct (strip_split s) as (l & r & E & Hl & Hr).
  rewrite H in E. rewrite E. apply Forall_app; split; assumption.
Qed.

Lemma find_from_none (c : N) (s : str) (i : Z) :
  mem c s = false -> find_from i s [c] = -1.
Proof.
  intros H. destruct (find_from_char c s i) as [[_ Hf]|(a & b & -> & _ & _)];
    [exact Hf|].
  rewrite mem_app in H. cbn [mem existsb] in H.
  rewrite N.eqb_refl, orb_true_r in H. discriminate.
Qed.

Lemma startswith_other (c : N) (s p : str) :
  mem c s = false -> startswith s (c :: p) = false.
Proof.
  destruct s as [|x s]; [reflexivity|].
  cbn [mem existsb startswith]. intros H.
  apply orb_false_iff in H as [-> _]. reflexivity.
Qed.

Lemma rfind_from_no_fence (s : str) (i last : Z) :
  mem 96%N s = false -> rfind_from i s fence last = last.
Proof.
  revert i last; induction s as [|x s IH]; intros i last H; [reflexivity|].
  cbn [rfind_from]; cbv zeta.
  change fence with (96%N :: [96%N; 96%N]). rewrite startswith_other by exact H.
  cbn [mem existsb] in H. apply orb_false_iff in H as [_ H].
  now apply IH.
Qed.

(** A text that opens with a fence and holds no line break and no other
    backtick: the only fence found is the opening one, at index 0. *)
Lemma strip_markdown_fences_lone_fence (body : str) :
  mem 10%N body = false -> mem 96%N body = false ->
  strip_markdown_fences (fence ++ body) = [].
Proof.
  intros Hnl Hbt. unfold strip_markdown_fences.
  assert (Hs : exists q r, body = q ++ r /\ strip (fence ++ body) = fence ++ q).
  { destruct (rstrip_keep [96%N; 96%N] body 96 eq_refl) as (q & r & E & H).
    exists q, r; split; [exact E|].
    unfold strip. change (lstrip (fence ++ body)) with (fence ++ body).
    exact H. }
  destruct Hs as (q & r & E & ->).
  rewrite E in Hnl, Hbt.
  apply mem_app_false in Hnl as [Hnl _]. apply mem_app_false in Hbt as [Hbt _].
  rewrite startswith_app.
  unfold find. change nl with [10%N].
  rewrite find_from_none
    by (rewrite mem_app, Hnl; reflexivity).
  change (negb (-1 =? -1)) with false. cbv iota.
  unfold rfind. change (fence ++ q) with (96%N :: 96%N :: 96%N :: q).
  cbn [rfind_from]; cbv zeta.
  change (startswith (96%N :: 96%N :: 96%N :: q) fence)
    with (startswith q []).
  rewrite startswith_nil.
  change (startswith (96%N :: 96%N :: q) fence) with (startswith q [96%N]).
  change (startswith (96%N :: q) fence) with (startswith q [96%N; 96%N]).
  rewrite !startswith_other by exact Hbt.
  rewrite rfind_from_no_fence by exact Hbt.
  reflexivity.
Qed.

Lemma strip_markdown_fences_strip (a b : str) :
  strip a = strip b -> strip_markdown_fences a = strip_markdown_fences b.
Proof. unfold strip_markdown_fences. now intros ->. Qed.

Lemma strip_lspaces (l x : str) :
  Forall (fun c => isspace c = true) l -> strip (l ++ x) = strip x.
Proof. intros H. unfold strip. now rewrite JsonFacts.lstrip_spaces. Qed.

(** X18. Fence stripping when no fence closes the text. A text that does not
    open with a fence is only trimmed. A text that opens with a fence and
    goes on without a line break and without another backtick is emptied,
    whatever it holds, so it does not decode. With a line break after the
    opening fence and no backtick after it, what follows the line break is
    kept, trimmed. *)
Theorem fences_that_are_not_closed :
  (forall text,
     startswith (strip text) fence = false ->
     strip_markdown_fences text = strip text)
  /\ (forall body,
        mem 10%N body = false -> mem 96%N body = false ->
        strip_markdown_fences (fence ++ body) = []
        /\ safe_json_load (fence ++ body)
           = Raise (HTTPException 500 (invalid_json_detail [])))
  /\ (forall info body,
        mem 10%N info = false -> mem 96%N info = false ->
        mem 96%N body = false ->
        strip_markdown_fences (fence ++ info ++ nl ++ body) = strip body).
Proof.
  split; [|split].
  - intros text H. unfold strip_markdown_fences. rewrite H. apply strip_idem.
  - intros body Hnl Hbt.
    pose proof (strip_markdown_fences_lone_fence body Hnl Hbt) as H.
    split; [exact H|]. unfold safe_json_load. rewrite H. reflexivity.
  - intros info body Hnl Hbi Hbb.
    destruct (strip_split body) as (l & r & E & Hl & Hr).
    destruct (strip body) as [|c core] eqn:Es.
    + rewrite (strip_markdown_fences_strip _ (fence ++ info)).
      * now apply strip_markdown_fences_lone_fence.
      * unfold strip.
        change (lstrip (fence ++ info ++ nl ++ body))
          with (fence ++ info ++ nl ++ body).
        change (lstrip (fence ++ info)) with (fence ++ info).
        replace (fence ++ info ++ nl ++ body)
          with ((fence ++ info) ++ nl ++ body) by now rewrite <- app_assoc.
        apply JsonFacts.rstrip_spaces.
        apply Forall_app; split; [now repeat constructor|].
        now apply strip_nil_spaces.
    + assert (Hne : c :: core <> []) by discriminate.
      destruct (exists_last Hne) as (u & y & Eu).
      assert (Hy : isspace y = false).
      { pose proof (strip_trimmed body) as [_ Ht]. rewrite Es in Ht.
        now apply (Ht y u). }
      assert (Ht : strip (fence ++ info ++ nl ++ body)
                   = ((fence ++ info) ++ nl) ++ l ++ c :: core).
      { unfold strip.
        change (lstrip (fence ++ info ++ nl ++ body))
          with (fence ++ info ++ nl ++ body).
        rewrite E, Eu.
        replace (fence ++ info ++ nl ++ l ++ (u ++ [y]) ++ r)
          with ((fence ++ info ++ nl ++ l ++ u) ++ y :: r)
          by (now rewrite <- !app_assoc).
        rewrite rstrip_after, rstrip_all_spaces by assumption.
        now rewrite <- !app_assoc. }
      unfold strip_markdown_fences. rewrite Ht.
      replace (startswith (((fence ++ info) ++ nl) ++ l ++ c :: core) fence)
        with true
        by (rewrite <- !app_assoc; symmetry; apply startswith_app).
      assert (Hfind : find (((fence ++ info) ++ nl) ++ l ++ c :: core) nl
                      = len (fence ++ info)).
      { unfold find. change nl with [10%N]. rewrite <- app_assoc.
        rewrite find_from_first; [lia|].
        rewrite mem_app, Hnl. reflexivity. }
      rewrite Hfind.
      replace (len (fence ++ info) =? -1) with false
        by (symmetry; apply Z.eqb_neq; pose proof (len_nonneg (fence ++ info)); lia).
      cbn [negb].
      replace (len (fence ++ info) + 1) with (len ((fence ++ info) ++ nl))
        by (unfold len; rewrite (length_app (fence ++ info) nl); simpl; lia).
      rewrite slice_from_app.
      assert (Hb : mem 96%N (l ++ c :: core) = false).
      { rewrite E in Hbb.
        rewrite mem_app in Hbb |- *.
        apply orb_false_iff in Hbb as [Hbl Hbb].
        apply mem_app_false in Hbb as [Hbb _]. now rewrite Hbl, Hbb. }
      unfold rfind. rewrite rfind_from_no_fence by exact Hb.
      change (negb (-1 =? -1)) with false. cbv iota.
      rewrite strip_lspaces by exact Hl.
      rewrite <- Es. apply strip_idem.
Qed.

(** ** The recursion bound of the decoder *)

(** The bound that [loads] puts on the recursion of the scanner is never
    what makes decoding fail: whenever some bound lets the scanner read a
    value from the cleaned text, with only whitespace after it,
    [safe_json_load] returns that value. *)
Lemma loads_bound_is_enough :
  forall (raw : str) (f : nat) (v : value) (r : str),
    Json.scan_once f (Json.skip_ws (cleanup raw)) = Some (v, r) ->
    Json.skip_ws r = [] ->
    Json.loads (cleanup raw) = Some v /\ safe_json_load raw = Return v.
Proof.
  intros raw f v r H Hr.
  assert (Hl : Json.loads (cleanup raw) = Some v).
  { unfold Json.loads.
    destruct (JsonFacts.scan_once_peel f (S (length (cleanup raw)))
                (Json.skip_ws (cleanup raw)) [] v r) as (r0 & E & H0).
    - now rewrite app_nil_r.
    - simpl; lia.
    - pose proof (JsonFacts.suffix_length _ _
                    (JsonFacts.skip_ws_suffix (cleanup raw))).
      simpl; lia.
    - rewrite H0. rewrite app_nil_r in E. subst r0. now rewrite Hr. }
  split; [exact Hl|]. now rewrite safe_json_load_cleanup, Hl.
Qed.

(** ** From normalized slides to the page *)

Lemma split_on_nonempty (sep : N) (cur s : str) : split_on sep cur s <> [].
Proof.
  revert cur; induction s as [|c t IH]; intros cur; cbn [split_on];
    [discriminate|].
  destruct (N.eqb c sep); [discriminate|apply IH].
Qed.

Lemma join_split_on (cur s : str) : join nl (split_on 10%N cur s) = cur ++ s.
Proof.
  revert cur; induction s as [|c t IH]; intros cur; cbn [split_on].
  - cbn [join]. now rewrite app_nil_r.
  - destruct (N.eqb_spec c 10) as [->|Hc].
    + pose proof (split_on_nonempty 10 [] t) as Hne.
      specialize (IH []). destruct (split_on 10 [] t) as [|b bs]; [congruence|].
      change (join nl (cur :: b :: bs)) with (cur ++ nl ++ join nl (b :: bs)).
      now rewrite IH.
    + rewrite IH. now rewrite <- app_assoc.
Qed.

Lemma split_on_no_sep (sep : N) (s cur : str) :
  mem sep cur = false ->
  Forall (fun b => mem sep b = false) (split_on sep cur s).
Proof.
  revert cur; induction s as [|c t IH]; intros cur Hcur; cbn [split_on].
  - now repeat constructor.
  - destruct (N.eqb_spec c sep) as [->|Hc].
    + constructor; [exact Hcur|now apply IH].
    + apply IH. rewrite mem_app, Hcur. cbn [mem existsb].
      rewrite orb_false_r. apply N.eqb_neq. congruence.
Qed.

Section RenderedSlides.

Context {rt : Runtime}.

Import Units.

(** X19. A normalized slide reaches the page as it is: the renderer reads
    its title and its content unchanged and its type with underscores turned
    into spaces; the blocks it lays out hold no line break and, joined by
    line breaks, are the content; and the lines drawn are those blocks,
    wrapped. *)
Theorem normalized_slides_are_rendered_as_they_are :
  forall (logo : bool) (slide_type title content : str),
    trimmed title -> trimmed content ->
    let s := slide slide_type title content in
    let blocks := split_on 10%N [] content in
    title_of s = title
    /\ content_of s = content
    /\ slide_type_of s = str_title (replace_char 95%N 32%N slide_type)
    /\ join nl blocks = content
    /\ Forall (fun b => mem 10%N b = false) blocks
    /\ drawn (content_ops logo s)
       = flat_map (fun block => wrap_text (strip block) 95) blocks.
Proof.
  intros logo slide_type title content Ht Hc s blocks.
  assert (E1 : title_of s = title).
  { unfold title_of, s.
    change (get (slide slide_type title content) (lit "title") (VStr (lit "Untitled")))
      with (VStr title).
    now apply strip_fix. }
  assert (E2 : content_of s = content).
  { unfold content_of, s.
    change (get (slide slide_type title content) (lit "content") (VStr []))
      with (VStr content).
    now apply strip_fix. }
  repeat split; try assumption.
  - apply (join_split_on [] content).
  - now apply split_on_no_sep.
  - unfold content_ops. rewrite drawn_draw_blocks, E2. reflexivity.
Qed.

Lemma drawn_centred_app (a b : list canvas_op) :
  drawn_centred (a ++ b) = drawn_centred a ++ drawn_centred b.
Proof. apply flat_map_app. Qed.

Lemma drawn_centred_draw_lines (logo : bool) (wrapped : list str) (y : float) :
  drawn_centred (fst (draw_lines logo y wrapped)) = [].
Proof.
  revert y; induction wrapped as [|ln rest IH]; intros y; [reflexivity|].
  rewrite draw_lines_cons; cbv zeta; cbn [fst].
  rewrite drawn_centred_app. cbn [drawn_centred flat_map app].
  fold (drawn_centred (fst (draw_lines logo
          ((if (y <? bottom_margin)%float then (height - 3.0 * cm)%float else y)
           - 14)%float rest))).
  rewrite IH, app_nil_r.
  destruct (y <? bottom_margin)%float; now destruct logo.
Qed.

Lemma drawn_centred_draw_blocks (logo : bool) (blocks : list str) (y : float) :
  drawn_centred (fst (draw_blocks logo y blocks)) = [].
Proof.
  revert y; induction blocks as [|b rest IH]; intros y; [reflexivity|].
  rewrite draw_blocks_cons.
  destruct (negb (nonempty (strip b))); [apply IH|].
  cbv zeta; cbn [fst].
  now rewrite drawn_centred_app, drawn_centred_draw_lines, IH.
Qed.

Lemma drawn_centred_slide_pages (logo : bool) (total i : Z) (s : dict) :
  drawn_centred (slide_pages logo total i s) = [footer].
Proof.
  unfold slide_pages, content_ops.
  rewrite !drawn_centred_app, drawn_centred_draw_blocks.
  now destruct logo.
Qed.

Lemma drawn_centred_all_slide_pages (logo : bool) (total i : Z)
    (slides : list dict) :
  drawn_centred (all_slide_pages logo total i slides)
  = repeat footer (length slides).
Proof.
  revert i; induction slides as [|s rest IH]; intros i; [reflexivity|].
  cbn [all_slide_pages length repeat].
  now rewrite drawn_centred_app, drawn_centred_slide_pages, IH.
Qed.

(** X20. The centred texts of the document are the three of the title page,
    the product name, the topic and the caption, and then the footer once
    for each slide: a continuation page of a slide carries no footer, the
    footer stands on the last page of the slide. *)
Theorem footer_is_drawn_once_for_each_slide :
  forall (logo : bool) (topic : str) (slides : list dict),
    drawn_centred (canvas_of logo topic slides)
    = [ lit "SprintSlidesAI"; lit "Topic: " ++ topic;
        lit "Generated using Groq + FastAPI" ]
      ++ repeat footer (length slides)
    /\ (forall total i s,
          drawn_centred (slide_pages logo total i s) = [footer]
          /\ exists ops,
               slide_pages logo total i s
               = ops ++ [drawCentredString (width / 2) (1.4 * cm) footer; showPage]).
Proof.
  intros logo topic slides; split.
  - unfold canvas_of.
    rewrite !drawn_centred_app, drawn_centred_all_slide_pages.
    cbn [drawn_centred flat_map app]. rewrite app_nil_r.
    now destruct logo.
  - intros total i s; split; [apply drawn_centred_slide_pages|].
    unfold slide_pages. eexists.
    rewrite !app_assoc.
    change [setFillColor (lit "#6B7280"); setFont (lit "Helvetica") 10;
            drawCentredString (width / 2) (1.4 * cm) footer; showPage]
      with ([setFillColor (lit "#6B7280"); setFont (lit "Helvetica") 10]
            ++ [drawCentredString (width / 2) (1.4 * cm) footer; showPage]).
    rewrite !app_assoc. reflexivity.
Qed.

End RenderedSlides.

(** * Concrete runs *)

Module Examples.

Import Samples.

#[local] Existing Instance AsciiRuntime.runtime.

(** C1 fails on the code: both answers are undecodable, yet only one request
    is sent and the error names the first text alone. *)
Lemma undecodable_first_attempt_is_not_retried :
  let w := server (fun _ => reply (lit "oops")) in
  Json.loads (cleanup (lit "oops")) = None
  /\ length (calls (snd (generate_deck (photosynthesis 3) w))) = 1%nat
  /\ fst (generate_deck (photosynthesis 3) w)
     = Raise (HTTPException 500 (invalid_json_detail (lit "oops"))).
Proof. vm_compute. repeat split; reflexivity. Qed.

Lemma undecodable_text_witness :
  let w := server (fun _ => reply (lit "oops")) in
  generate_deck (photosynthesis 3) w
  = (Raise (HTTPException 500 (invalid_json_detail (lit "oops"))),
     post (payload (lit "gsk") (build_prompt (lit "Photosynthesis") 3) llama
             2250 true) w).
Proof.
  intros w.
  apply (proj1 (undecodable_text_is_terminal_and_shape_failure_retries_once
                  (photosynthesis 3) w eq_refl
                  (conj (Zle_bool_imp_le 3 3 eq_refl) (Zle_bool_imp_le 3 15 eq_refl))
                  eq_refl eq_refl)).
  reflexivity.
Defined.

(** Two slides where three were asked for, twice: the retry is sent with the
    larger budget and the error previews both decoded answers. *)
Lemma shape_failure_is_retried_once :
  let answer := qlit "{'slides': [{'title': 'A'}, {'title': 'B'}]}" in
  let decoded :=
    VDict [(lit "slides", VList [VDict [(lit "title", VStr (lit "A"))];
                                 VDict [(lit "title", VStr (lit "B"))]])] in
  let w := server (fun _ => reply answer) in
  fst (generate_deck (photosynthesis 3) w)
  = Raise (HTTPException 500 (inconsistent_detail 3 decoded decoded))
  /\ map Request.max_tokens (calls (snd (generate_deck (photosynthesis 3) w)))
     = [2250; 3450].
Proof. vm_compute. split; reflexivity. Qed.

(** C2 fails on the code: on undecodable text the normalizer raises. *)
Lemma normalizer_raises_on_undecodable_text :
  normalizer (lit "oops") 3
  = Raise (HTTPException 500 (invalid_json_detail (lit "oops"))).
Proof. reflexivity. Qed.

Lemma slideCount_zero_witness :
  exists rest,
    calls (snd (generate_deck (photosynthesis 0) (server (fun _ => reply (lit "oops")))))
    = payload (lit "gsk") (build_prompt (lit "Photosynthesis") 5) llama 2950 true
      :: rest.
Proof.
  exact (proj2 (slideCount_zero_is_generated_as_five
                  (lit "Photosynthesis") (server (fun _ => reply (lit "oops")))
                  eq_refl eq_refl)).
Defined.

Lemma slides_mapping_witness :
  normalize_slides
    (VDict [(lit "slides", VDict (map (fun e => (fst e, VDict (snd e))) keyed))]) 2
  = Return (Some [ slide (lit "overview") (lit "Light") [];
                   slide (lit "examples") [] [] ]).
Proof.
  exact (proj1 (slides_mapping_normalizes_in_insertion_order
                  [(lit "slides", VDict (map (fun e => (fst e, VDict (snd e))) keyed))]
                  keyed 2 eq_refl eq_refl)).
Defined.

Lemma surplus_truncated_witness :
  normalize_slides
    (VDict [(lit "slides", VList [VDict []; VDict []; VInt 7])]) 2
  = Return (Some [coerce []; coerce []])
  /\ normalize_slides (VDict [(lit "slides", VList [VDict []])]) 2 = Return None.
Proof.
  split.
  - exact (proj2 (proj2
      (proj1 (surplus_truncated_and_shortfall_rejected
                [(lit "slides", VList [VDict []; VDict []; VInt 7])]
                [VDict []; VDict []; VInt 7] 2 eq_refl (Zle_bool_imp_le 0 2 eq_refl))
         1 eq_refl eq_refl)) [[]; []] [VInt 7] eq_refl eq_refl).
  - exact (proj2 (surplus_truncated_and_shortfall_rejected
                    [(lit "slides", VList [VDict []])] [VDict []] 2 eq_refl
                    (Zle_bool_imp_le 0 2 eq_refl)) eq_refl).
Defined.

(** A document that is not an object makes [normalize_slides] itself raise. *)
Lemma normalizer_on_array_document :
  normalizer (lit "[1, 2]") 3
  = Raise (AttributeError (VList [VInt 1; VInt 2]) (lit "get")).
Proof. reflexivity. Qed.

(** Three slides in an array inside a fenced block: one request, three
    slides. *)
Lemma fenced_deck_is_generated_at_once :
  let answer :=
    fenced (lit "json")
      (qlit "{'slides': [{'type': 'overview', 'title': ' Light ', 'content': 'a'}, {'title': 'Dark'}, {}]}") in
  let w := server (fun _ => reply answer) in
  fst (generate_deck (photosynthesis 3) w)
  = Return (ok_payload [ slide (lit "overview") (lit "Light") (lit "a");
                         slide (lit "overview") (lit "Dark") [];
                         slide (lit "overview") [] [] ])
  /\ length (calls (snd (generate_deck (photosynthesis 3) w))) = 1%nat.
Proof. vm_compute. split; reflexivity. Qed.

(** The same slides under keys of an object: no retry either. *)
Lemma keyed_deck_is_generated_at_once :
  let answer :=
    qlit "{'slides': {'1': {'title': 'A'}, '2': {'title': 'B'}, '3': {'title': 'C'}}}" in
  let w := server (fun _ => reply answer) in
  fst (generate_deck (photosynthesis 3) w)
  = Return (ok_payload [ slide (lit "overview") (lit "A") [];
                         slide (lit "overview") (lit "B") [];
                         slide (lit "overview") (lit "C") [] ])
  /\ length (calls (snd (generate_deck (photosynthesis 3) w))) = 1%nat.
Proof. vm_compute. split; reflexivity. Qed.

(** C8 fails on the code: an array of objects is a valid document, but
    brace slicing cuts it down to text that does not decode. *)
Lemma fenced_array_of_objects_does_not_decode :
  let d := qlit "[{'a':1},{'b':2}]" in
  Json.loads d
  = Some (VList [VDict [(lit "a", VInt 1)]; VDict [(lit "b", VInt 2)]])
  /\ cleanup (fenced (lit "json") d) = qlit "{'a':1},{'b':2}"
  /\ Json.loads (cleanup (fenced (lit "json") d)) = None.
Proof. vm_compute. repeat split; reflexivity. Qed.

Lemma fenced_object_witness :
  Json.loads (cleanup (fenced (lit "json") (qlit " {'slides': [1, 2]}  ")))
  = Json.loads (qlit " {'slides': [1, 2]}  ").
Proof.
  exact (proj1 (proj2 (fenced_object_cleans_to_the_same_parse
                         (lit "json") (qlit " {'slides': [1, 2]}  ")
                         [(lit "slides", VList [VInt 1; VInt 2])]
                         eq_refl eq_refl))).
Defined.


(** Forty-four one-word lines: the forty-fourth would fall below the margin
    of a single page, and the slide closes two pages. *)
Lemma long_slide_takes_two_pages :
  overflows (Units.height - 6.0 * Units.cm)%float
    (split_on 10%N [] (content_of long_slide)) = true
  /\ page_count (slide_pages false 1 1 long_slide) = 2%nat
  /\ drawn (content_ops false long_slide) = repeat (lit "x") 44.
Proof. vm_compute. repeat split; reflexivity. Qed.

Lemma short_slide_takes_one_page :
  page_count
    (slide_pages false 1 1
       [(lit "content", VStr (join nl (repeat (lit "x") 43)))]) = 1%nat.
Proof. vm_compute. reflexivity. Qed.

Lemma missing_credential_witness :
  generate_deck (photosynthesis 3) unconfigured
  = (Raise (HTTPException 500 (VStr (lit "GROQ_API_KEY missing on server"))),
     unconfigured).
Proof.
  exact (proj1 (missing_credential_is_reported_without_a_request
                  (lit "Photosynthesis") 3 unconfigured eq_refl
                  (conj (Zle_bool_imp_le 3 3 eq_refl) (Zle_bool_imp_le 3 15 eq_refl))
                  eq_refl)).
Defined.

Lemma upstream_failure_witness :
  let w := server (fun _ => unavailable) in
  generate_deck (photosynthesis 3) w
  = (Raise (HTTPException 503 (VStr (lit "Service Unavailable"))),
     post (first_request (lit "gsk") (lit "Photosynthesis") 3) w).
Proof.
  intros w.
  apply (proj1 (upstream_failure_is_raised_and_not_retried
                  (lit "Photosynthesis") 3 w eq_refl
                  (conj (Zle_bool_imp_le 3 3 eq_refl) (Zle_bool_imp_le 3 15 eq_refl))
                  eq_refl)).
  discriminate.
Defined.

(** The service fails on the retry: its status is raised after the two
    requests. *)
Lemma upstream_failure_on_the_retry :
  let w := server (fun i => match i with O => reply two_slides | _ => unavailable end) in
  fst (generate_deck (photosynthesis 3) w)
  = Raise (HTTPException 503 (VStr (lit "Service Unavailable")))
  /\ length (calls (snd (generate_deck (photosynthesis 3) w))) = 2%nat.
Proof. vm_compute. split; reflexivity. Qed.

Lemma error_previews_witness :
  previews_bounded (invalid_json_detail (lit "oops")).
Proof.
  exact (proj1 (error_previews_hold_at_most_900_characters
                  (photosynthesis 3) (server (fun _ => reply (lit "oops")))
                  (post (first_request (lit "gsk") (lit "Photosynthesis") 3)
                     (server (fun _ => reply (lit "oops"))))
                  500 (invalid_json_detail (lit "oops")) eq_refl)).
Defined.

Lemma download_pdf_get_witness :
  let w := server (fun _ => reply three_keyed_slides) in
  let deck := [ slide (lit "overview") (lit "A") [];
                slide (lit "overview") (lit "B") [];
                slide (lit "overview") (lit "C") [] ] in
  exists slides,
    pdf_response false (lit "Photosynthesis") deck
    = pdf_response false (lit "Photosynthesis") slides
    /\ len slides = 3
    /\ 3 <= len slides <= 15
    /\ Forall normal_slide slides
    /\ lit "Photosynthesis" <> []
    /\ (0 < 1)%nat.
Proof.
  intros w deck.
  exact (download_pdf_get_renders_a_whole_deck
           (lit "Photosynthesis") 3 w
           (post (first_request (lit "gsk") (lit "Photosynthesis") 3) w)
           (pdf_response false (lit "Photosynthesis") deck) eq_refl).
Defined.

(** A topic with spaces, and one without. *)
Lemma filename_of_a_topic_with_spaces :
  filename (lit "cell  division") = lit "SprintSlidesAI_cell__division.pdf"
  /\ filename (lit "Photosynthesis") = lit "SprintSlidesAI_Photosynthesis.pdf".
Proof. split; reflexivity. Qed.

Lemma normalize_round_trip_witness :
  normalize_slides (ok_payload [coerce []; coerce []]) 2
  = Return (Some [coerce []; coerce []]).
Proof.
  exact (proj1 (normalize_slides_is_idempotent_through_the_response
                  (VDict [(lit "slides", VList [VDict []; VDict []])]) 2
                  [coerce []; coerce []] eq_refl)).
Defined.

(** A word longer than the width stands on a line of its own, unbroken. *)
Lemma long_word_is_not_broken :
  wrap_text (lit "a photosynthetically bc d") 6
  = [lit "a"; lit "photosynthetically"; lit "bc d"].
Proof. reflexivity. Qed.

(** Two slides, the first of them on two pages, with the logo. *)
Lemma pages_of_a_two_slide_document :
  let ops := canvas_of true (lit "Cells") [long_slide; []] in
  page_count ops = 4%nat /\ image_count ops = 4%nat
  /\ drawn_right ops = [lit "1 / 2"; lit "2 / 2"].
Proof. vm_compute. repeat split; reflexivity. Qed.

Lemma commentary_witness :
  safe_json_load
    (lit "Here is the deck: " ++ qlit " {'slides': [1, 2]} " ++ lit " Good luck!")
  = Return (VDict [(lit "slides", VList [VInt 1; VInt 2])]).
Proof.
  exact (proj2 (commentary_around_an_object_is_discarded
                  (lit "Here is the deck: ") (qlit " {'slides': [1, 2]} ")
                  (lit " Good luck!") [(lit "slides", VList [VInt 1; VInt 2])]
                  eq_refl eq_refl eq_refl eq_refl)).
Defined.

(** A brace in the commentary is taken for the beginning of the document. *)
Lemma brace_in_the_commentary :
  cleanup (qlit "Use {} as braces: {'slides': []}") = qlit "{} as braces: {'slides': []}"
  /\ Json.loads (cleanup (qlit "Use {} as braces: {'slides': []}")) = None.
Proof. vm_compute. split; reflexivity. Qed.

(** The retry prompt of a topic that is not trimmed loses the whitespace at
    its end. *)
Lemma retry_prompt_of_an_untrimmed_topic :
  slice (build_retry_prompt (lit "Cells  ") 3) (Some (-12)) None
  = lit "TOPIC: Cells".
Proof. vm_compute. reflexivity. Qed.

(** A reply on one line behind an opening fence is lost. *)
Lemma one_line_reply_behind_a_fence :
  strip_markdown_fences (fence ++ qlit "json {'slides': []}") = []
  /\ Json.loads (qlit "{'slides': []}") = Some (VDict [(lit "slides", VList [])]).
Proof. vm_compute. split; reflexivity. Qed.

Lemma rendered_slide_witness :
  let s := slide (lit "core_concepts") (lit "Light") (lit "a b" ++ nl ++ lit "c") in
  title_of s = lit "Light"
  /\ slide_type_of s = lit "Core Concepts"
  /\ drawn (content_ops false s) = [lit "a b"; lit "c"].
Proof.
  intros s.
  destruct (normalized_slides_are_rendered_as_they_are
              false (lit "core_concepts") (lit "Light") (lit "a b" ++ nl ++ lit "c")
              (strip_trimmed (lit "Light"))
              (strip_trimmed (lit "a b" ++ nl ++ lit "c")))
    as (Ht & _ & Hs & _ & _ & Hd).
  split; [exact Ht|]. split; [exact Hs|exact Hd].
Defined.

(** A slide on two pages has one footer. *)
Lemma long_slide_has_one_footer :
  page_count (slide_pages false 1 1 long_slide) = 2%nat
  /\ drawn_centred (slide_pages false 1 1 long_slide) = [footer].
Proof. vm_compute. split; reflexivity. Qed.

End Examples.
